(** * Three-address code generation of the Mini-C compiler (ast.h)

    A shallow embedding of the [generate_code] methods of
    [src/MiniCCompiler/ast.h], with theorems about temporaries, labels and
    the symbol cache.

    Modelling decisions.
    - [ofstream& outcode] is the list of lines written so far: every
      output statement of the source ends in [endl], so a line is the unit
      of output.
    - [map<string,string>] is a [gmap string string].
    - [int] counters are [Z].  The source only ever increments them from
      the caller's initial value.  Signed overflow is undefined behaviour
      in C++, so there is no wrap-around to write out: the model follows
      the code on every run in which both counters stay at or below
      [INT_MAX], and says nothing about the others.
    - [to_string] on an [int] (and [operator<<] on an integer) is the
      decimal rendering [pretty] of stdpp.
    - The static members [VarNode::force_fresh_load] and
      [VarNode::last_access] are process-wide state; they are fields of the
      context that is threaded through every call. *)

From Stdlib Require Import ZArith String Ascii List.
From stdpp Require Import base gmap strings pretty list.

Set Warnings "-register-all".

Local Open Scope Z_scope.
Local Open Scope string_scope.

#[local] Arguments String.append !_ _ / : simpl nomatch.

(** ** The code-generation context *)

Record Ctx : Type := mkCtx {
  outcode : list string;
  symbol_to_temp : gmap string string;
  temp_count : Z;
  label_count : Z;
  force_fresh_load : bool;
  last_access : gmap string string
}.

(** The context a driver starts from: nothing written, empty cache, both
    counters at 0, and the static members at their initialisers. *)
Definition fresh_ctx : Ctx :=
  mkCtx [] ∅ 0 0 false ∅.

Definition set_outcode (f : list string -> list string) (c : Ctx) : Ctx :=
  mkCtx (f (outcode c)) (symbol_to_temp c) (temp_count c) (label_count c)
        (force_fresh_load c) (last_access c).

Definition set_symbol_to_temp (f : gmap string string -> gmap string string)
    (c : Ctx) : Ctx :=
  mkCtx (outcode c) (f (symbol_to_temp c)) (temp_count c) (label_count c)
        (force_fresh_load c) (last_access c).

Definition set_temp_count (f : Z -> Z) (c : Ctx) : Ctx :=
  mkCtx (outcode c) (symbol_to_temp c) (f (temp_count c)) (label_count c)
        (force_fresh_load c) (last_access c).

Definition set_label_count (f : Z -> Z) (c : Ctx) : Ctx :=
  mkCtx (outcode c) (symbol_to_temp c) (temp_count c) (f (label_count c))
        (force_fresh_load c) (last_access c).

Definition set_force_fresh_load (b : bool) (c : Ctx) : Ctx :=
  mkCtx (outcode c) (symbol_to_temp c) (temp_count c) (label_count c)
        b (last_access c).

Definition set_last_access (f : gmap string string -> gmap string string)
    (c : Ctx) : Ctx :=
  mkCtx (outcode c) (symbol_to_temp c) (temp_count c) (label_count c)
        (force_fresh_load c) (f (last_access c)).

(** ** A state monad over the context *)

Definition M (A : Type) : Type := Ctx -> A * Ctx.

Definition ret {A} (a : A) : M A := fun c => (a, c).

Definition bind {A B} (m : M A) (k : A -> M B) : M B :=
  fun c => let (a, c') := m c in k a c'.

Notation "x <- m ;; k" := (bind m (fun x => k))
  (at level 100, m at level 99, right associativity).
Notation "m ;; k" := (bind m (fun _ => k))
  (at level 100, right associativity).

Definition modify (f : Ctx -> Ctx) : M unit := fun c => (tt, f c).

Definition gets {A} (f : Ctx -> A) : M A := fun c => (f c, c).

(** [to_string(n)] for an [int]. *)
Definition to_string (n : Z) : string := pretty n.

(** [outcode << line << endl] *)
Definition emit (line : string) : M unit :=
  modify (set_outcode (fun o => (o ++ [line])%list)).

(** ["t" + to_string(temp_count++)] *)
Definition next_temp : M string :=
  fun c => ("t" +:+ to_string (temp_count c), set_temp_count Z.succ c).

(** ["L" + to_string(label_count++)] *)
Definition next_label : M string :=
  fun c => ("L" +:+ to_string (label_count c), set_label_count Z.succ c).

(** A range-based [for] over a vector of child pointers, the result of each
    call being dropped. *)
Definition for_each {A B} (f : A -> M B) : list A -> M unit :=
  fix go (l : list A) : M unit :=
    match l with
    | [] => ret tt
    | x :: l' => f x ;; go l'
    end.

(** Running an optional child: [if (p) p->generate_code(...)]. *)
Definition when_present {A B} (f : A -> M B) (o : option A) : M unit :=
  match o with
  | Some x => f x ;; ret tt
  | None => ret tt
  end.

(** ** The syntax tree *)

(** Expression nodes.  A null [ExprNode*] is [None]; the operands of
    [BinaryOpNode], [UnaryOpNode] and the right-hand side of [AssignNode]
    are dereferenced unconditionally by the source and are never null.
    The [lhs] of an [AssignNode] is a [VarNode*]: it is given by the three
    fields of that [VarNode]. *)
Inductive ExprNode : Type :=
| VarNode (name : string) (node_type : string) (index : option ExprNode)
| ConstNode (value : string) (node_type : string)
| BinaryOpNode (op : string) (left_ right_ : ExprNode) (node_type : string)
| UnaryOpNode (op : string) (expr : ExprNode) (node_type : string)
| AssignNode (lhs_name lhs_type : string) (lhs_index : option ExprNode)
             (rhs : ExprNode) (node_type : string)
| FuncCallNode (func_name : string) (node_type : string)
               (arguments : list ExprNode).

(** Statement nodes, and the nodes that are neither statements nor
    expressions.  [ForNode] keeps its [init] and [condition] as plain
    [ASTNode*], so the two types are mutually defined.  The body of a
    [FuncDeclNode] is a [BlockNode*], that is, its statement vector. *)
Inductive StmtNode : Type :=
| ExprStmtNode (expr : option ExprNode)
| BlockNode (statements : list StmtNode)
| IfNode (condition : ExprNode) (then_block else_block : option StmtNode)
| WhileNode (condition : ExprNode) (body : option StmtNode)
| ForNode (init condition : option ASTNode) (update : option ExprNode)
          (body : option StmtNode)
| ReturnNode (expr : option ExprNode)
| DeclNode (type : string) (vars : list (string * Z))
with ASTNode : Type :=
| Expr (e : ExprNode)
| Stmt (s : StmtNode)
| FuncDeclNode (return_type name : string) (params : list (string * string))
               (body : option (list StmtNode))
| ArgumentsNode (args : list ExprNode)
| ProgramNode (units : list ASTNode).

(** ** Expressions: [generate_code] *)

Fixpoint ExprNode_generate_code (e : ExprNode) : M string :=
  match e with
  | VarNode name _ index =>
      force <- gets force_fresh_load ;;
      cache <- gets symbol_to_temp ;;
      temp <-
        match index, force, cache !! name with
        | None, false, Some cached =>
            modify (set_temp_count Z.succ) ;;
            ret cached
        | _, _, _ =>
            temp <- next_temp ;;
            match index with
            | None => emit (temp +:+ " = " +:+ name)
            | Some i =>
                idx_temp <- ExprNode_generate_code i ;;
                emit (temp +:+ " = " +:+ name +:+ "[" +:+ idx_temp +:+ "]")
            end ;;
            modify (set_symbol_to_temp (insert name temp)) ;;
            ret temp
        end ;;
      modify (set_last_access (insert name temp)) ;;
      ret temp
  | ConstNode value _ =>
      temp <- next_temp ;;
      emit (temp +:+ " = " +:+ value) ;;
      ret temp
  | BinaryOpNode op left_ right_ _ =>
      l <- ExprNode_generate_code left_ ;;
      r <- ExprNode_generate_code right_ ;;
      temp <- next_temp ;;
      emit (temp +:+ " = " +:+ l +:+ " " +:+ op +:+ " " +:+ r) ;;
      ret temp
  | UnaryOpNode op expr _ =>
      val <- ExprNode_generate_code expr ;;
      temp <- next_temp ;;
      emit (temp +:+ " = " +:+ op +:+ val) ;;
      ret temp
  | AssignNode lhs_name _ lhs_index rhs _ =>
      rval <- ExprNode_generate_code rhs ;;
      match lhs_index with
      | Some i =>
          idx <- ExprNode_generate_code i ;;
          emit (lhs_name +:+ "[" +:+ idx +:+ "] = " +:+ rval)
      | None =>
          emit (lhs_name +:+ " = " +:+ rval) ;;
          modify (set_symbol_to_temp (insert lhs_name rval))
      end ;;
      ret rval
  | FuncCallNode func_name node_type arguments =>
      for_each (fun arg =>
        arg_temp <-
          match arg with
          | VarNode name _ index =>
              arg_temp <- next_temp ;;
              match index with
              | Some i =>
                  idx_temp <- ExprNode_generate_code i ;;
                  emit (arg_temp +:+ " = " +:+ name +:+ "[" +:+ idx_temp
                        +:+ "]")
              | None => emit (arg_temp +:+ " = " +:+ name)
              end ;;
              ret arg_temp
          | _ => ExprNode_generate_code arg
          end ;;
        emit ("param " +:+ arg_temp)) arguments ;;
      if String.eqb node_type "void" then
        emit ("call " +:+ func_name +:+ ", "
              +:+ to_string (Z.of_nat (length arguments))) ;;
        ret ""
      else
        temp <- next_temp ;;
        emit (temp +:+ " = call " +:+ func_name +:+ ", "
              +:+ to_string (Z.of_nat (length arguments))) ;;
        ret temp
  end.

(** The body of the argument loop of [FuncCallNode::generate_code], and the
    call instruction after the loop, as functions of their own; the
    equation [FuncCallNode_generate_code_eq] ties them to the definition. *)
Definition FuncCallNode_argument (arg : ExprNode) : M unit :=
  arg_temp <-
    match arg with
    | VarNode name _ index =>
        arg_temp <- next_temp ;;
        match index with
        | Some i =>
            idx_temp <- ExprNode_generate_code i ;;
            emit (arg_temp +:+ " = " +:+ name +:+ "[" +:+ idx_temp +:+ "]")
        | None => emit (arg_temp +:+ " = " +:+ name)
        end ;;
        ret arg_temp
    | _ => ExprNode_generate_code arg
    end ;;
  emit ("param " +:+ arg_temp).

Definition FuncCallNode_call (func_name node_type : string) (argc : nat)
    : M string :=
  if String.eqb node_type "void" then
    emit ("call " +:+ func_name +:+ ", " +:+ to_string (Z.of_nat argc)) ;;
    ret ""
  else
    temp <- next_temp ;;
    emit (temp +:+ " = call " +:+ func_name +:+ ", "
          +:+ to_string (Z.of_nat argc)) ;;
    ret temp.

(** ** Statements and the remaining nodes: [generate_code] *)

(** The parameter list of the header comment of a function:
    [type name] pairs separated by [", "]. *)
Fixpoint params_text (params : list (string * string)) : string :=
  match params with
  | [] => ""
  | (ty, nm) :: rest =>
      ty +:+ " " +:+ nm +:+
      match rest with
      | [] => ""
      | _ :: _ => ", " +:+ params_text rest
      end
  end.

(** One [// Declaration:] line of a [DeclNode]. *)
Definition decl_line (type : string) (v : string * Z) : string :=
  "// Declaration: " +:+ type +:+ " " +:+ fst v +:+
  (if decide (0 < snd v) then "[" +:+ to_string (snd v) +:+ "]" else "").

(** The loop of [ForNode] that copies [last_access] into the (just cleared)
    cache, entry by entry. *)
Definition copy_last_access (la cache : gmap string string)
    : gmap string string :=
  map_fold (fun k v acc => <[k:=v]> acc) cache la.

Fixpoint StmtNode_generate_code (s : StmtNode) : M string :=
  match s with
  | ExprStmtNode expr =>
      when_present ExprNode_generate_code expr ;;
      ret ""
  | BlockNode statements =>
      for_each StmtNode_generate_code statements ;;
      ret ""
  | IfNode condition then_block else_block =>
      cond_temp <- ExprNode_generate_code condition ;;
      true_label <- next_label ;;
      false_label <- next_label ;;
      end_label <- next_label ;;
      emit ("if " +:+ cond_temp +:+ " goto " +:+ true_label) ;;
      emit ("goto " +:+ false_label) ;;
      emit (true_label +:+ ":") ;;
      when_present StmtNode_generate_code then_block ;;
      emit ("goto " +:+ end_label) ;;
      emit (false_label +:+ ":") ;;
      when_present StmtNode_generate_code else_block ;;
      emit (end_label +:+ ":") ;;
      ret ""
  | WhileNode condition body =>
      start_label <- next_label ;;
      body_label <- next_label ;;
      end_label <- next_label ;;
      emit (start_label +:+ ":") ;;
      cond_temp <- ExprNode_generate_code condition ;;
      emit ("if " +:+ cond_temp +:+ " goto " +:+ body_label) ;;
      emit ("goto " +:+ end_label) ;;
      emit (body_label +:+ ":") ;;
      when_present StmtNode_generate_code body ;;
      emit ("goto " +:+ start_label) ;;
      emit (end_label +:+ ":") ;;
      ret ""
  | ForNode init condition update body =>
      match init with
      | Some (Stmt s) => StmtNode_generate_code s ;; ret tt
      | Some (Expr e) => ExprNode_generate_code e ;; ret tt
      | _ => ret tt
      end ;;
      start_label <- next_label ;;
      body_label <- next_label ;;
      end_label <- next_label ;;
      emit (start_label +:+ ":") ;;
      cond_temp <-
        match condition with
        | Some c =>
            modify (set_last_access (fun _ => ∅)) ;;
            modify (set_force_fresh_load true) ;;
            cond_temp <-
              match c with
              | Stmt es =>
                  match es with
                  | ExprStmtNode (Some e) => ExprNode_generate_code e
                  | ExprStmtNode None =>
                      StmtNode_generate_code es ;; ret "1"
                  | _ => StmtNode_generate_code es ;; ret "1"
                  end
              | Expr e => ExprNode_generate_code e
              | _ => ret "1"
              end ;;
            modify (set_force_fresh_load false) ;;
            modify (set_symbol_to_temp (fun _ => ∅)) ;;
            la <- gets last_access ;;
            modify (set_symbol_to_temp (copy_last_access la)) ;;
            ret cond_temp
        | None => ret "1"
        end ;;
      emit ("if " +:+ cond_temp +:+ " goto " +:+ body_label) ;;
      emit ("goto " +:+ end_label) ;;
      emit (body_label +:+ ":") ;;
      when_present StmtNode_generate_code body ;;
      when_present ExprNode_generate_code update ;;
      emit ("goto " +:+ start_label) ;;
      emit (end_label +:+ ":") ;;
      ret ""
  | ReturnNode expr =>
      match expr with
      | Some e =>
          val <- ExprNode_generate_code e ;;
          emit ("return " +:+ val)
      | None => emit "return"
      end ;;
      ret ""
  | DeclNode type vars =>
      for_each (fun v => emit (decl_line type v)) vars ;;
      ret ""
  end.

Definition ASTNode_generate_code : ASTNode -> M string :=
  fix generate_code (n : ASTNode) : M string :=
  match n with
  | Expr e => ExprNode_generate_code e
  | Stmt s => StmtNode_generate_code s
  | FuncDeclNode return_type name params body =>
      emit ("// Function: " +:+ return_type +:+ " " +:+ name +:+ "("
            +:+ params_text params +:+ ")") ;;
      modify (set_symbol_to_temp (fun _ => ∅)) ;;
      when_present
        (fun statements => for_each StmtNode_generate_code statements ;; ret "")
        body ;;
      emit "" ;;
      ret ""
  | ArgumentsNode _ => ret ""
  | ProgramNode units =>
      for_each generate_code units ;;
      ret ""
  end.

(** ** Test programs *)

(** [if (x) { y = 1; } else { y = 2; }] with scalar [int] variables. *)
Definition if_x_y : StmtNode :=
  IfNode (VarNode "x" "int" None)
    (Some (BlockNode
       [ExprStmtNode
          (Some (AssignNode "y" "int" None (ConstNode "1" "int") "int"))]))
    (Some (BlockNode
       [ExprStmtNode
          (Some (AssignNode "y" "int" None (ConstNode "2" "int") "int"))])).




(** [void f(int x, int y) { if ... }] and
    [void g() { int x, a[10]; if ... }], both around the [if] above. *)
Definition two_ifs : ASTNode :=
  ProgramNode
    [FuncDeclNode "void" "f" [("int", "x"); ("int", "y")] (Some [if_x_y]);
     FuncDeclNode "void" "g" []
       (Some [DeclNode "int" [("x", 0); ("a", 10)]; if_x_y])].

(** [a[0]], [x], [f()] and [g(y, 1)]. *)
Definition a_at_0 : ExprNode := VarNode "a" "int" (Some (ConstNode "0" "int")).

Definition x_read : ExprNode := VarNode "x" "int" None.

Definition call_f : ExprNode := FuncCallNode "f" "int" [].

Definition call_g_y_1 : ExprNode :=
  FuncCallNode "g" "int" [VarNode "y" "int" None; ConstNode "1" "int"].

(** The context after one read of [x] from the fresh context: [x] is cached
    in [t0]. *)
Definition ctx_x_cached : Ctx := snd (ExprNode_generate_code x_read fresh_ctx).

(** An argument whose translation neither reads nor writes the cache: a
    scalar variable reference (loaded afresh by the call) or a constant. *)
Definition scalar_or_const (a : ExprNode) : bool :=
  match a with
  | VarNode _ _ None => true
  | ConstNode _ _ => true
  | _ => false
  end.

(** The lines a call writes for one argument: the lines [fst b] that load
    the argument into the temporary [snd b], closed by [param]; for a
    scalar variable reference the load is the single line [tN = name]. *)
Definition argument_block (a : ExprNode) (b : list string * string) : Prop :=
  match a with
  | VarNode name _ None => fst b = [snd b +:+ " = " +:+ name]
  | _ => True
  end.

Definition block_lines (b : list string * string) : list string :=
  (fst b ++ ["param " +:+ snd b])%list.

(** Arguments that are no variable reference. *)
Definition not_a_variable (a : ExprNode) : Prop :=
  match a with
  | VarNode _ _ _ => False
  | _ => True
  end.

(** ** The pieces of the loop statements, by name

    The parts of [ForNode::generate_code], as functions of their own;
    [ForNode_generate_code_eq] ties them to the definition. *)

(** [if (init) ...]: a statement or an expression is translated, any other
    node is skipped. *)
Definition ForNode_init (init : option ASTNode) : M unit :=
  match init with
  | Some (Stmt s) => StmtNode_generate_code s ;; ret tt
  | Some (Expr e) => ExprNode_generate_code e ;; ret tt
  | _ => ret tt
  end.

(** The dispatch on the kind of the condition node, between
    [set_force_fresh(true)] and [set_force_fresh(false)]. *)
Definition ForNode_condition (c : ASTNode) : M string :=
  match c with
  | Stmt es =>
      match es with
      | ExprStmtNode (Some e) => ExprNode_generate_code e
      | ExprStmtNode None => StmtNode_generate_code es ;; ret "1"
      | _ => StmtNode_generate_code es ;; ret "1"
      end
  | Expr e => ExprNode_generate_code e
  | _ => ret "1"
  end.

(** The whole of [if (condition) { ... }], giving [cond_temp]. *)
Definition ForNode_header (condition : option ASTNode) : M string :=
  match condition with
  | Some c =>
      modify (set_last_access (fun _ => ∅)) ;;
      modify (set_force_fresh_load true) ;;
      cond_temp <- ForNode_condition c ;;
      modify (set_force_fresh_load false) ;;
      modify (set_symbol_to_temp (fun _ => ∅)) ;;
      la <- gets last_access ;;
      modify (set_symbol_to_temp (copy_last_access la)) ;;
      ret cond_temp
  | None => ret "1"
  end.

(** What follows the condition of a loop: the two jumps, the body label,
    the body, the update (absent in a [while]), the back jump and the end
    label. *)
Definition loop_rest (cond_temp start_label body_label end_label : string)
    (body : option StmtNode) (update : option ExprNode) : M string :=
  emit ("if " +:+ cond_temp +:+ " goto " +:+ body_label) ;;
  emit ("goto " +:+ end_label) ;;
  emit (body_label +:+ ":") ;;
  when_present StmtNode_generate_code body ;;
  when_present ExprNode_generate_code update ;;
  emit ("goto " +:+ start_label) ;;
  emit (end_label +:+ ":") ;;
  ret "".

(** What follows the condition of an [if], from the allocation of its
    three labels on. *)
Definition if_rest (cond_temp : string) (then_block else_block : option StmtNode)
    : M string :=
  true_label <- next_label ;;
  false_label <- next_label ;;
  end_label <- next_label ;;
  emit ("if " +:+ cond_temp +:+ " goto " +:+ true_label) ;;
  emit ("goto " +:+ false_label) ;;
  emit (true_label +:+ ":") ;;
  when_present StmtNode_generate_code then_block ;;
  emit ("goto " +:+ end_label) ;;
  emit (false_label +:+ ":") ;;
  when_present StmtNode_generate_code else_block ;;
  emit (end_label +:+ ":") ;;
  ret "".

(** The three labels of a loop and its start label line. *)
Definition loop_labels : M (string * string * string) :=
  start_label <- next_label ;;
  body_label <- next_label ;;
  end_label <- next_label ;;
  emit (start_label +:+ ":") ;;
  ret (start_label, body_label, end_label).

(** The header comment of a function and the reset of the cache: the state
    in which the body of a function unit is translated. *)
Definition FuncDeclNode_enter (return_type name : string)
    (params : list (string * string)) : M unit :=
  emit ("// Function: " +:+ return_type +:+ " " +:+ name +:+ "("
        +:+ params_text params +:+ ")") ;;
  modify (set_symbol_to_temp (fun _ => ∅)).

(** [BlockNode::generate_code] on the body of a function unit. *)
Definition FuncDeclNode_body (body : option (list StmtNode)) : M unit :=
  when_present
    (fun statements => for_each StmtNode_generate_code statements ;; ret "")
    body.

(** ** Lines that define a label *)

(** The line [Lk:] that defines label number [k]. *)
Definition label_line (k : Z) : string := "L" +:+ to_string k +:+ ":".

(** A line that is no label definition, whatever the label number. *)
Definition plain (line : string) : Prop := forall k, line <> label_line k.

(** How many times the definition of label [k] occurs among [lines]. *)
Definition label_defs (k : Z) (lines : list string) : nat :=
  length (filter (fun l => l = label_line k) lines).

Fixpoint has_space (s : string) : bool :=
  match s with
  | EmptyString => false
  | String a s' => Ascii.eqb a " " || has_space s'
  end.

(** ** Effects of a translation step on the context *)

(** Every run of [m] relates the context before to the context after by
    [R]. *)
Definition preserves (R : Ctx -> Ctx -> Prop) {A} (m : M A) : Prop :=
  forall c, R c (snd (m c)).

(** Translating an expression leaves the label counter alone, never lowers
    the temporary counter and only appends lines, none of which defines a
    label. *)
Definition expr_effect (c c' : Ctx) : Prop :=
  label_count c' = label_count c /\
  temp_count c <= temp_count c' /\
  exists ls, outcode c' = (outcode c ++ ls)%list /\ Forall plain ls.

(** Translating a statement (or any node) never lowers a counter, only
    appends lines, and defines each label it allocates exactly once, and
    no other label. *)
Definition gen_effect (c c' : Ctx) : Prop :=
  temp_count c <= temp_count c' /\
  label_count c <= label_count c' /\
  exists ls, outcode c' = (outcode c ++ ls)%list /\
    forall k, label_defs k ls =
              if decide (label_count c <= k < label_count c') then 1%nat
              else 0%nat.

(** Steps that leave the cache and the forced-fresh flag as they are. *)
Definition keeps_cache (c c' : Ctx) : Prop :=
  symbol_to_temp c' = symbol_to_temp c /\
  force_fresh_load c' = force_fresh_load c.

(** Weakest preconditions, to walk through the steps of one node. *)
Definition wp {A} (m : M A) (Q : A -> Ctx -> Prop) (c : Ctx) : Prop :=
  Q (fst (m c)) (snd (m c)).

(** ** Induction over the nested syntax trees *)

Definition opt_all {A} (P : A -> Prop) (o : option A) : Prop :=
  match o with
  | Some x => P x
  | None => True
  end.

(** What [ForNode] can reach through an [ASTNode*] child: a statement. *)
Definition stmt_child_all (P : StmtNode -> Prop) (o : option ASTNode) : Prop :=
  match o with
  | Some (Stmt s) => P s
  | _ => True
  end.

Section ExprNode_induction.
Variable P : ExprNode -> Prop.
Hypothesis P_Var : forall name ty index,
  opt_all P index -> P (VarNode name ty index).
Hypothesis P_Const : forall value ty, P (ConstNode value ty).
Hypothesis P_BinaryOp : forall op l r ty,
  P l -> P r -> P (BinaryOpNode op l r ty).
Hypothesis P_UnaryOp : forall op e ty, P e -> P (UnaryOpNode op e ty).
Hypothesis P_Assign : forall name lty index rhs ty,
  opt_all P index -> P rhs -> P (AssignNode name lty index rhs ty).
Hypothesis P_FuncCall : forall name ty args,
  Forall P args -> P (FuncCallNode name ty args).

Fixpoint ExprNode_nested_ind (e : ExprNode) : P e :=
  match e with
  | VarNode name ty index =>
      P_Var name ty index
        match index return opt_all P index with
        | Some i => ExprNode_nested_ind i
        | None => I
        end
  | ConstNode value ty => P_Const value ty
  | BinaryOpNode op l r ty =>
      P_BinaryOp op l r ty (ExprNode_nested_ind l) (ExprNode_nested_ind r)
  | UnaryOpNode op e' ty => P_UnaryOp op e' ty (ExprNode_nested_ind e')
  | AssignNode name lty index rhs ty =>
      P_Assign name lty index rhs ty
        match index return opt_all P index with
        | Some i => ExprNode_nested_ind i
        | None => I
        end
        (ExprNode_nested_ind rhs)
  | FuncCallNode name ty args =>
      P_FuncCall name ty args
        ((fix all (l : list ExprNode) : Forall P l :=
            match l with
            | [] => List.Forall_nil P
            | a :: l' => @List.Forall_cons _ P a l' (ExprNode_nested_ind a) (all l')
            end) args)
  end.
End ExprNode_induction.

Section StmtNode_induction.
Variable P : StmtNode -> Prop.
Hypothesis P_ExprStmt : forall e, P (ExprStmtNode e).
Hypothesis P_Block : forall l, Forall P l -> P (BlockNode l).
Hypothesis P_If : forall c t e,
  opt_all P t -> opt_all P e -> P (IfNode c t e).
Hypothesis P_While : forall c b, opt_all P b -> P (WhileNode c b).
Hypothesis P_For : forall i c u b,
  stmt_child_all P i -> stmt_child_all P c -> opt_all P b ->
  P (ForNode i c u b).
Hypothesis P_Return : forall e, P (ReturnNode e).
Hypothesis P_Decl : forall ty vars, P (DeclNode ty vars).

Fixpoint StmtNode_nested_ind (s : StmtNode) : P s :=
  match s with
  | ExprStmtNode e => P_ExprStmt e
  | BlockNode l =>
      P_Block l
        ((fix all (l : list StmtNode) : Forall P l :=
            match l with
            | [] => List.Forall_nil P
            | a :: l' => @List.Forall_cons _ P a l' (StmtNode_nested_ind a) (all l')
            end) l)
  | IfNode c t e =>
      P_If c t e
        match t return opt_all P t with
        | Some x => StmtNode_nested_ind x
        | None => I
        end
        match e return opt_all P e with
        | Some x => StmtNode_nested_ind x
        | None => I
        end
  | WhileNode c b =>
      P_While c b
        match b return opt_all P b with
        | Some x => StmtNode_nested_ind x
        | None => I
        end
  | ForNode i c u b =>
      P_For i c u b
        match i return stmt_child_all P i with
        | Some (Stmt x) => StmtNode_nested_ind x
        | _ => I
        end
        match c return stmt_child_all P c with
        | Some (Stmt x) => StmtNode_nested_ind x
        | _ => I
        end
        match b return opt_all P b with
        | Some x => StmtNode_nested_ind x
        | None => I
        end
  | ReturnNode e => P_Return e
  | DeclNode ty vars => P_Decl ty vars
  end.
End StmtNode_induction.

Section ASTNode_induction.
Variable Q : ASTNode -> Prop.
Hypothesis Q_Expr : forall e, Q (Expr e).
Hypothesis Q_Stmt : forall s, Q (Stmt s).
Hypothesis Q_FuncDecl : forall rt name params body,
  Q (FuncDeclNode rt name params body).
Hypothesis Q_Arguments : forall args, Q (ArgumentsNode args).
Hypothesis Q_Program : forall units, Forall Q units -> Q (ProgramNode units).

Fixpoint ASTNode_nested_ind (n : ASTNode) : Q n :=
  match n with
  | Expr e => Q_Expr e
  | Stmt s => Q_Stmt s
  | FuncDeclNode rt name params body => Q_FuncDecl rt name params body
  | ArgumentsNode args => Q_Arguments args
  | ProgramNode units =>
      Q_Program units
        ((fix all (l : list ASTNode) : Forall Q l :=
            match l with
            | [] => List.Forall_nil Q
            | a :: l' => @List.Forall_cons _ Q a l' (ASTNode_nested_ind a) (all l')
            end) units)
  end.
End ASTNode_induction.

(** ** Building the trees

    [BlockNode::add_statement], [ArgumentsNode::add_argument],
    [FuncCallNode::add_argument] and [ProgramNode::add_unit] are one and
    the same code: [if (p) v.push_back(p);]. *)
Definition add_child {A} (p : option A) (v : list A) : list A :=
  match p with
  | Some x => (v ++ [x])%list
  | None => v
  end.

(** [ArgumentsNode::size] and [ArgumentsNode::get_argument]; the [int]
    index is a [Z], a null result is [None]. *)
Definition ArgumentsNode_size (args : list ExprNode) : Z :=
  Z.of_nat (length args).

Definition ArgumentsNode_get_argument (index : Z) (args : list ExprNode)
    : option ExprNode :=
  if decide (0 <= index /\ index < ArgumentsNode_size args)
  then args !! Z.to_nat index
  else None.

(** ** Counting temporaries and labels on the tree *)

(** The temporaries an expression takes from the counter: one per variable
    reference, constant, operator and non-void call. *)
Fixpoint ExprNode_temps (e : ExprNode) : Z :=
  match e with
  | VarNode _ _ index =>
      1 + match index with Some i => ExprNode_temps i | None => 0 end
  | ConstNode _ _ => 1
  | BinaryOpNode _ l r _ => ExprNode_temps l + ExprNode_temps r + 1
  | UnaryOpNode _ e' _ => ExprNode_temps e' + 1
  | AssignNode _ _ index rhs _ =>
      ExprNode_temps rhs
      + match index with Some i => ExprNode_temps i | None => 0 end
  | FuncCallNode _ ty args =>
      foldr (fun a n => ExprNode_temps a + n) 0 args
      + (if String.eqb ty "void" then 0 else 1)
  end.

Definition opt_count {A} (f : A -> Z) (o : option A) : Z :=
  match o with
  | Some x => f x
  | None => 0
  end.

(** The temporaries a statement takes.  Of the [init] and [condition] of a
    [for] only statements and expressions count: other nodes are skipped
    by the code. *)
Fixpoint StmtNode_temps (s : StmtNode) : Z :=
  match s with
  | ExprStmtNode e => opt_count ExprNode_temps e
  | BlockNode l => foldr (fun a n => StmtNode_temps a + n) 0 l
  | IfNode c t e =>
      ExprNode_temps c
      + match t with Some x => StmtNode_temps x | None => 0 end
      + match e with Some x => StmtNode_temps x | None => 0 end
  | WhileNode c b =>
      ExprNode_temps c
      + match b with Some x => StmtNode_temps x | None => 0 end
  | ForNode i c u b =>
      match i with
      | Some (Stmt x) => StmtNode_temps x
      | Some (Expr x) => ExprNode_temps x
      | _ => 0
      end
      + match c with
        | Some (Stmt x) => StmtNode_temps x
        | Some (Expr x) => ExprNode_temps x
        | _ => 0
        end
      + match b with Some x => StmtNode_temps x | None => 0 end
      + opt_count ExprNode_temps u
  | ReturnNode e => opt_count ExprNode_temps e
  | DeclNode _ _ => 0
  end.

(** The labels a statement takes: three for every [if], [while] and [for]
    that is translated. *)
Fixpoint StmtNode_labels (s : StmtNode) : Z :=
  match s with
  | ExprStmtNode _ => 0
  | BlockNode l => foldr (fun a n => StmtNode_labels a + n) 0 l
  | IfNode _ t e =>
      3
      + match t with Some x => StmtNode_labels x | None => 0 end
      + match e with Some x => StmtNode_labels x | None => 0 end
  | WhileNode _ b =>
      3 + match b with Some x => StmtNode_labels x | None => 0 end
  | ForNode i c _ b =>
      3
      + match i with Some (Stmt x) => StmtNode_labels x | _ => 0 end
      + match c with Some (Stmt x) => StmtNode_labels x | _ => 0 end
      + match b with Some x => StmtNode_labels x | None => 0 end
  | ReturnNode _ => 0
  | DeclNode _ _ => 0
  end.

Fixpoint ASTNode_temps (n : ASTNode) : Z :=
  match n with
  | Expr e => ExprNode_temps e
  | Stmt s => StmtNode_temps s
  | FuncDeclNode _ _ _ body =>
      match body with
      | Some l => foldr (fun a n => StmtNode_temps a + n) 0 l
      | None => 0
      end
  | ArgumentsNode _ => 0
  | ProgramNode units => foldr (fun a n => ASTNode_temps a + n) 0 units
  end.

Fixpoint ASTNode_labels (n : ASTNode) : Z :=
  match n with
  | Expr _ => 0
  | Stmt s => StmtNode_labels s
  | FuncDeclNode _ _ _ body =>
      match body with
      | Some l => foldr (fun a n => StmtNode_labels a + n) 0 l
      | None => 0
      end
  | ArgumentsNode _ => 0
  | ProgramNode units => foldr (fun a n => ASTNode_labels a + n) 0 units
  end.

(** A step that moves the temporary counter by [dt] and the label counter
    by [dl]. *)
Definition counts_by (dt dl : Z) (c c' : Ctx) : Prop :=
  temp_count c' = temp_count c + dt /\
  label_count c' = label_count c + dl.

(** ** The forced-fresh flag *)

(** A step that leaves the flag as it is. *)
Definition keeps_flag (c c' : Ctx) : Prop :=
  force_fresh_load c' = force_fresh_load c.

(** A step that does not leave the flag set when it found it clear. *)
Definition flag_stays_clear (c c' : Ctx) : Prop :=
  force_fresh_load c = false -> force_fresh_load c' = false.

(** Two contexts in forced-fresh mode that differ in the cache only. *)
Definition same_but_cache (c1 c2 : Ctx) : Prop :=
  outcode c1 = outcode c2 /\
  temp_count c1 = temp_count c2 /\
  label_count c1 = label_count c2 /\
  last_access c1 = last_access c2 /\
  force_fresh_load c1 = true /\
  force_fresh_load c2 = true.

(** A computation that, run in two such contexts, gives the same value and
    two such contexts again. *)
Definition agree {A} (m : M A) : Prop :=
  forall c1 c2,
    same_but_cache c1 c2 ->
    fst (m c1) = fst (m c2) /\ same_but_cache (snd (m c1)) (snd (m c2)).

(** The effect of an optional child: that of a statement, and none at all
    when the child is absent. *)
Definition branch_effect {A} (o : option A) (c c' : Ctx) : Prop :=
  gen_effect c c' /\ (o = None -> c' = c).

(** What the argument loop of a call reaches below an argument: the index
    of a variable reference. *)
Definition arg_index_all (P : ExprNode -> Prop) (a : ExprNode) : Prop :=
  match a with
  | VarNode _ _ (Some i) => P i
  | _ => True
  end.

(** ** Code between two reads of a variable *)

(** In the expression [e] the name [x] is neither the target of a scalar
    assignment nor the base of an indexed access. *)
Fixpoint no_write_to (x : string) (e : ExprNode) : bool :=
  match e with
  | VarNode name _ index =>
      match index with
      | Some i => negb (String.eqb name x) && no_write_to x i
      | None => true
      end
  | ConstNode _ _ => true
  | BinaryOpNode _ l r _ => no_write_to x l && no_write_to x r
  | UnaryOpNode _ e' _ => no_write_to x e'
  | AssignNode name _ index rhs _ =>
      no_write_to x rhs
      && match index with
         | Some i => no_write_to x i
         | None => negb (String.eqb name x)
         end
  | FuncCallNode _ _ args => forallb (no_write_to x) args
  end.

Definition opt_forall {A} (f : A -> bool) (o : option A) : bool :=
  match o with
  | Some a => f a
  | None => true
  end.

(** The statement [s] has no such write to [x] in any of its expressions
    and no [for] with a condition, that is, no loop refresh. *)
Fixpoint quiet_for (x : string) (s : StmtNode) : bool :=
  match s with
  | ExprStmtNode e => opt_forall (no_write_to x) e
  | BlockNode l => forallb (quiet_for x) l
  | IfNode c t e =>
      no_write_to x c
      && match t with Some a => quiet_for x a | None => true end
      && match e with Some a => quiet_for x a | None => true end
  | WhileNode c b =>
      no_write_to x c
      && match b with Some a => quiet_for x a | None => true end
  | ForNode i c u b =>
      match c with Some _ => false | None => true end
      && match i with
         | Some (Stmt a) => quiet_for x a
         | Some (Expr a) => no_write_to x a
         | _ => true
         end
      && opt_forall (no_write_to x) u
      && match b with Some a => quiet_for x a | None => true end
  | ReturnNode e => opt_forall (no_write_to x) e
  | DeclNode _ _ => true
  end.

(** A step that, entered with the flag clear, leaves the flag clear and
    the cache entry of [x], if there is one, as it is. *)
Definition keeps_entry (x : string) (c c' : Ctx) : Prop :=
  force_fresh_load c = false ->
  force_fresh_load c' = false /\
  forall t, symbol_to_temp c !! x = Some t -> symbol_to_temp c' !! x = Some t.

(** ** Contexts along a skeleton *)

(** The context [c] after [lines] have been written and [dl] labels taken,
    everything else as in [c]. *)
Definition ctx_with (c : Ctx) (lines : list string) (dl : Z) : Ctx :=
  mkCtx (outcode c ++ lines) (symbol_to_temp c) (temp_count c)
        (label_count c + dl) (force_fresh_load c) (last_access c).

(** * Properties *)

(** ** Lines with and without blanks *)

Lemma has_space_app a b : has_space (a +:+ b) = has_space a || has_space b.
Proof.
  induction a as [|c a IH]; cbn; [done|].
  by rewrite IH, orb_assoc.
Qed.

Lemma has_space_pretty_N_go x s :
  has_space (pretty_N_go x s) = has_space s.
Proof.
  revert s. induction (N.lt_wf_0 x) as [x _ IH]; intros s.
  assert (x = 0 ∨ 0 < x)%N as [->|?] by lia.
  - by rewrite pretty_N_go_0.
  - rewrite pretty_N_go_step by done.
    rewrite IH by (by apply N.div_lt).
    cbn. unfold pretty_N_char. by repeat case_match.
Qed.

Lemma has_space_pretty_N (x : N) : has_space (pretty x) = false.
Proof.
  unfold pretty, pretty_N. case_decide; [done|].
  by rewrite has_space_pretty_N_go.
Qed.

Lemma has_space_to_string k : has_space (to_string k) = false.
Proof.
  unfold to_string, pretty, pretty_Z. destruct k as [|p|p]; [done|..].
  - apply has_space_pretty_N.
  - rewrite has_space_app. cbn. apply has_space_pretty_N.
Qed.

Lemma has_space_label_line k : has_space (label_line k) = false.
Proof.
  unfold label_line. rewrite !has_space_app, has_space_to_string. done.
Qed.

Lemma plain_of_space line : has_space line = true -> plain line.
Proof.
  intros Hs k ->. by rewrite has_space_label_line in Hs.
Qed.

Lemma append_char_inj (c : ascii) a b :
  a +:+ String c "" = b +:+ String c "" -> a = b.
Proof.
  revert b. induction a as [|x a IH]; intros [|y b] H; cbn in H.
  - done.
  - injection H as _ H. by destruct b.
  - injection H as _ H. by destruct a.
  - injection H as -> H. f_equal. by apply IH.
Qed.

Lemma label_line_inj j k : label_line j = label_line k -> j = k.
Proof.
  unfold label_line, to_string. intros H.
  injection H as H. apply append_char_inj in H.
  by apply (inj pretty) in H.
Qed.

(** ** Effects that every step preserves *)

Section Preserves.
Variable R : Ctx -> Ctx -> Prop.
Hypothesis R_refl : forall c, R c c.
Hypothesis R_trans : forall a b c, R a b -> R b c -> R a c.

Lemma preserves_ret {A} (a : A) : preserves R (ret a).
Proof. intros c. apply R_refl. Qed.

Lemma preserves_gets {A} (f : Ctx -> A) : preserves R (gets f).
Proof. intros c. apply R_refl. Qed.

Lemma preserves_bind {A B} (m : M A) (k : A -> M B) :
  preserves R m -> (forall a, preserves R (k a)) -> preserves R (bind m k).
Proof.
  intros Hm Hk c. unfold bind. specialize (Hm c).
  destruct (m c) as [a c']. cbn in Hm.
  eapply R_trans; [exact Hm|apply Hk].
Qed.

Lemma preserves_for_each {A B} (f : A -> M B) (l : list A) :
  Forall (fun x => preserves R (f x)) l -> preserves R (for_each f l).
Proof.
  induction 1 as [|x l Hx _ IH]; cbn.
  - apply preserves_ret.
  - apply preserves_bind; [exact Hx|intros _; exact IH].
Qed.

Lemma preserves_when_present {A B} (f : A -> M B) (o : option A) :
  opt_all (fun x => preserves R (f x)) o -> preserves R (when_present f o).
Proof.
  destruct o as [x|]; cbn; intros H.
  - apply preserves_bind; [exact H|intros _; apply preserves_ret].
  - apply preserves_ret.
Qed.
End Preserves.

(** ** The named pieces are the code *)

Lemma FuncCallNode_generate_code_eq func_name node_type arguments :
  ExprNode_generate_code (FuncCallNode func_name node_type arguments) =
  (for_each FuncCallNode_argument arguments ;;
   FuncCallNode_call func_name node_type (length arguments)).
Proof. reflexivity. Qed.

Lemma ForNode_generate_code_eq init condition update body :
  StmtNode_generate_code (ForNode init condition update body) =
  (ForNode_init init ;;
   start_label <- next_label ;;
   body_label <- next_label ;;
   end_label <- next_label ;;
   emit (start_label +:+ ":") ;;
   cond_temp <- ForNode_header condition ;;
   loop_rest cond_temp start_label body_label end_label body update).
Proof. reflexivity. Qed.

Lemma FuncDeclNode_generate_code_eq return_type name params body :
  ASTNode_generate_code (FuncDeclNode return_type name params body) =
  (FuncDeclNode_enter return_type name params ;;
   FuncDeclNode_body body ;;
   emit "" ;;
   ret "").
Proof. reflexivity. Qed.

(** ** What an expression does to the context *)

(** Unfolding the primitive steps down to the fields of the context. *)
Ltac ctx_simpl :=
  unfold emit, modify, gets, ret, next_temp, next_label,
    set_outcode, set_symbol_to_temp, set_temp_count, set_label_count,
    set_force_fresh_load, set_last_access in *;
  cbn [fst snd outcode symbol_to_temp temp_count label_count
       force_fresh_load last_access] in *.

Lemma expr_effect_refl c : expr_effect c c.
Proof.
  split; [done|]. split; [lia|]. exists []. by rewrite app_nil_r.
Qed.

Lemma expr_effect_trans a b c :
  expr_effect a b -> expr_effect b c -> expr_effect a c.
Proof.
  intros (Hl1 & Ht1 & ls1 & Ho1 & Hp1) (Hl2 & Ht2 & ls2 & Ho2 & Hp2).
  split; [congruence|]. split; [lia|].
  exists (ls1 ++ ls2)%list. split.
  - by rewrite Ho2, Ho1, app_assoc.
  - by apply Forall_app.
Qed.

Lemma expr_effect_emit line :
  plain line -> preserves expr_effect (emit line).
Proof.
  intros Hp c. unfold expr_effect. ctx_simpl. split; [done|]. split; [lia|].
  exists [line]. split; [done|]. by constructor.
Qed.

Lemma expr_effect_same c c' :
  outcode c' = outcode c -> label_count c' = label_count c ->
  temp_count c <= temp_count c' -> expr_effect c c'.
Proof.
  intros Ho Hl Ht. split; [done|]. split; [done|].
  exists []. by rewrite app_nil_r.
Qed.

Lemma expr_effect_next_temp : preserves expr_effect next_temp.
Proof. intros c. apply expr_effect_same; ctx_simpl; (done || lia). Qed.

Lemma expr_effect_modify f :
  (forall c, outcode (f c) = outcode c) ->
  (forall c, label_count (f c) = label_count c) ->
  (forall c, temp_count c <= temp_count (f c)) ->
  preserves expr_effect (modify f).
Proof. intros Ho Hl Ht c. apply expr_effect_same; cbn; auto. Qed.

(** Lines with a blank in them define no label. *)
Ltac spaced :=
  apply plain_of_space;
  repeat (rewrite has_space_app; cbn [has_space Ascii.eqb Bool.eqb orb]);
  cbn; rewrite ?orb_true_r; reflexivity.

Ltac expr_leaf :=
  first
    [ apply (preserves_ret expr_effect expr_effect_refl)
    | apply (preserves_gets expr_effect expr_effect_refl)
    | apply expr_effect_next_temp
    | apply expr_effect_emit; spaced
    | apply expr_effect_modify; intros; ctx_simpl; (reflexivity || lia) ].

Ltac expr_steps :=
  repeat first
    [ progress intros
    | assumption
    | apply (preserves_bind expr_effect expr_effect_trans)
    | expr_leaf
    | case_match ].

Lemma ExprNode_effect_index (e : ExprNode) :
  preserves expr_effect (ExprNode_generate_code e) /\
  match e with
  | VarNode _ _ (Some i) => preserves expr_effect (ExprNode_generate_code i)
  | _ => True
  end.
Proof.
  induction e as [name ty index IH| | | |name lty index rhs ty IH IHr
                 |name ty args IH] using ExprNode_nested_ind.
  - assert (opt_all (fun i => preserves expr_effect (ExprNode_generate_code i))
              index) as Hi.
    { destruct index; cbn in *; tauto. }
    split; [|destruct index; cbn in *; tauto].
    cbn [ExprNode_generate_code]. destruct index as [i|]; cbn in Hi; expr_steps.
  - split; [|done]. cbn [ExprNode_generate_code]. expr_steps.
  - split; [|done]. cbn [ExprNode_generate_code].
    destruct IHe1, IHe2. expr_steps.
  - split; [|done]. cbn [ExprNode_generate_code]. destruct IHe. expr_steps.
  - split; [|done]. cbn [ExprNode_generate_code]. destruct IHr.
    destruct index as [i|]; cbn in IH; [destruct IH|]; expr_steps.
  - split; [|done]. rewrite FuncCallNode_generate_code_eq.
    apply (preserves_bind expr_effect expr_effect_trans).
    + apply (preserves_for_each expr_effect expr_effect_refl expr_effect_trans).
      eapply Forall_impl; [exact IH|]. cbn beta.
      intros arg [Harg Hidx]. unfold FuncCallNode_argument.
      destruct arg as [n t [i|]| | | | |]; expr_steps.
    + intros _. unfold FuncCallNode_call. expr_steps.
Qed.

Lemma ExprNode_effect (e : ExprNode) :
  preserves expr_effect (ExprNode_generate_code e).
Proof. apply ExprNode_effect_index. Qed.

(** ** What a statement does to the context *)

Lemma label_defs_nil k : label_defs k [] = 0%nat.
Proof. reflexivity. Qed.

Lemma label_defs_app k l1 l2 :
  label_defs k (l1 ++ l2) = (label_defs k l1 + label_defs k l2)%nat.
Proof. unfold label_defs. by rewrite filter_app, length_app. Qed.

Lemma label_defs_cons_plain k line ls :
  plain line -> label_defs k (line :: ls) = label_defs k ls.
Proof.
  intros Hp. unfold label_defs. rewrite filter_cons.
  case_decide as E; [by apply Hp in E|done].
Qed.

Lemma label_defs_cons_label k j ls :
  label_defs k (label_line j :: ls) =
  ((if decide (j = k) then 1 else 0) + label_defs k ls)%nat.
Proof.
  unfold label_defs. rewrite filter_cons.
  case_decide as E.
  - apply label_line_inj in E. by rewrite decide_True.
  - rewrite decide_False; [done|]. by intros ->.
Qed.

Lemma label_defs_plain k ls : Forall plain ls -> label_defs k ls = 0%nat.
Proof.
  induction 1 as [|line ls Hp _ IH]; [done|].
  by rewrite label_defs_cons_plain.
Qed.

Lemma gen_effect_refl c : gen_effect c c.
Proof.
  split; [lia|]. split; [lia|]. exists []. split; [by rewrite app_nil_r|].
  intros k. rewrite decide_False by lia. done.
Qed.

Lemma gen_effect_trans a b c :
  gen_effect a b -> gen_effect b c -> gen_effect a c.
Proof.
  intros (Ht1 & Hl1 & ls1 & Ho1 & Hd1) (Ht2 & Hl2 & ls2 & Ho2 & Hd2).
  split; [lia|]. split; [lia|].
  exists (ls1 ++ ls2)%list. split.
  - by rewrite Ho2, Ho1, app_assoc.
  - intros k. rewrite label_defs_app, Hd1, Hd2.
    repeat case_decide; lia.
Qed.

Lemma expr_gen_effect c c' : expr_effect c c' -> gen_effect c c'.
Proof.
  intros (Hl & Ht & ls & Ho & Hp).
  split; [lia|]. split; [lia|]. exists ls. split; [done|].
  intros k. rewrite label_defs_plain by done.
  rewrite decide_False by lia. done.
Qed.

Lemma gen_effect_expr (e : ExprNode) :
  preserves gen_effect (ExprNode_generate_code e).
Proof. intros c. apply expr_gen_effect, ExprNode_effect. Qed.

Lemma gen_effect_emit line : plain line -> preserves gen_effect (emit line).
Proof. intros Hp c. by apply expr_gen_effect, expr_effect_emit. Qed.

Lemma gen_effect_modify f :
  (forall c, outcode (f c) = outcode c) ->
  (forall c, label_count (f c) = label_count c) ->
  (forall c, temp_count c <= temp_count (f c)) ->
  preserves gen_effect (modify f).
Proof. intros Ho Hl Ht c. by apply expr_gen_effect, expr_effect_modify. Qed.

Lemma plain_return : plain "return".
Proof. intros k H. discriminate H. Qed.

Lemma plain_empty : plain "".
Proof. intros k H. discriminate H. Qed.

Lemma plain_decl_line ty v : plain (decl_line ty v).
Proof. unfold decl_line. spaced. Qed.

Ltac gen_leaf :=
  first
    [ apply (preserves_ret gen_effect gen_effect_refl)
    | apply (preserves_gets gen_effect gen_effect_refl)
    | apply gen_effect_expr
    | apply gen_effect_emit;
      first [apply plain_return | apply plain_empty | apply plain_decl_line
            | spaced]
    | apply gen_effect_modify; intros; ctx_simpl; (reflexivity || lia) ].

Ltac gen_steps :=
  repeat first
    [ progress intros
    | assumption
    | apply (preserves_bind gen_effect gen_effect_trans)
    | apply (preserves_when_present gen_effect gen_effect_refl gen_effect_trans)
    | apply (preserves_for_each gen_effect gen_effect_refl gen_effect_trans)
    | gen_leaf ].

(** The three-label skeleton shared by [if], [while] and [for]: the labels
    [a], [a+1], [a+2] are allocated together and each is defined once,
    around pieces of code that allocate and define their own labels. *)
Lemma label_line_unfold k : ("L" +:+ to_string k) +:+ ":" = label_line k.
Proof. reflexivity. Qed.

Lemma wp_bind {A B} (m : M A) (k : A -> M B) Q c :
  wp m (fun a c' => wp (k a) Q c') c -> wp (bind m k) Q c.
Proof. unfold wp, bind. by destruct (m c). Qed.

Lemma wp_ret {A} (a : A) (Q : A -> Ctx -> Prop) c : Q a c -> wp (ret a) Q c.
Proof. done. Qed.

Lemma wp_emit line (Q : unit -> Ctx -> Prop) c :
  Q tt (set_outcode (fun o => (o ++ [line])%list) c) -> wp (emit line) Q c.
Proof. done. Qed.

Lemma wp_modify f (Q : unit -> Ctx -> Prop) c :
  Q tt (f c) -> wp (modify f) Q c.
Proof. done. Qed.

Lemma wp_gets {A} (f : Ctx -> A) (Q : A -> Ctx -> Prop) c :
  Q (f c) c -> wp (gets f) Q c.
Proof. done. Qed.

Lemma wp_next_label (Q : string -> Ctx -> Prop) c :
  Q ("L" +:+ to_string (label_count c)) (set_label_count Z.succ c) ->
  wp next_label Q c.
Proof. done. Qed.

Lemma wp_next_temp (Q : string -> Ctx -> Prop) c :
  Q ("t" +:+ to_string (temp_count c)) (set_temp_count Z.succ c) ->
  wp next_temp Q c.
Proof. done. Qed.

Lemma wp_preserves {A} R (m : M A) (Q : A -> Ctx -> Prop) c :
  preserves R m -> (forall a c', R c c' -> Q a c') -> wp m Q c.
Proof. intros Hm HQ. apply HQ, Hm. Qed.

Lemma preserves_wp {A} R (m : M A) :
  (forall c, wp m (fun _ c' => R c c') c) -> preserves R m.
Proof. intros H c. apply H. Qed.

(** Closing a walk: every piece is an effect, the new lines are put
    together and the label definitions are counted. *)
Ltac effects_done :=
  repeat match goal with
  | H : expr_effect _ _ |- _ => apply expr_gen_effect in H
  end;
  repeat match goal with
  | H : gen_effect _ _ |- _ =>
      let Ht := fresh "Ht" in let Hl := fresh "Hl" in
      let ls := fresh "ls" in let Ho := fresh "Ho" in
      let Hd := fresh "Hd" in
      destruct H as (Ht & Hl & ls & Ho & Hd)
  end;
  unfold gen_effect; ctx_simpl;
  split; [lia|]; split; [lia|];
  eexists; split;
  [ repeat match goal with
    | H : outcode _ = _ |- _ => rewrite H; clear H
    end;
    rewrite <- ?app_assoc; reflexivity
  | intros ?k;
    rewrite ?label_defs_app;
    repeat match goal with
    | H : forall k, label_defs k _ = _ |- _ => rewrite H; clear H
    end;
    rewrite ?label_line_unfold;
    repeat first
      [ rewrite label_defs_cons_label
      | rewrite label_defs_cons_plain by spaced ];
    rewrite ?label_defs_nil;
    repeat case_decide; lia ].

Lemma StmtNode_effect (s : StmtNode) :
  preserves gen_effect (StmtNode_generate_code s).
Proof.
  induction s as [e|l IH|c t e IHt IHe|c b IHb|i c u b IHi IHc IHb|e|ty vars]
    using StmtNode_nested_ind.
  - cbn [StmtNode_generate_code]. destruct e; cbn [when_present]; gen_steps.
  - cbn [StmtNode_generate_code]. gen_steps.
  - apply preserves_wp. intros st. cbn [StmtNode_generate_code].
    apply wp_bind, (wp_preserves expr_effect); [apply ExprNode_effect|].
    intros ct st1 Hc.
    do 3 apply wp_bind, wp_next_label.
    do 3 apply wp_bind, wp_emit.
    apply wp_bind, (wp_preserves gen_effect); [gen_steps|].
    intros _ st2 H2.
    do 2 apply wp_bind, wp_emit.
    apply wp_bind, (wp_preserves gen_effect); [gen_steps|].
    intros _ st3 H3.
    apply wp_bind, wp_emit. apply wp_ret.
    effects_done.
  - apply preserves_wp. intros st. cbn [StmtNode_generate_code].
    do 3 apply wp_bind, wp_next_label.
    apply wp_bind, wp_emit.
    apply wp_bind, (wp_preserves expr_effect); [apply ExprNode_effect|].
    intros ct st1 Hc.
    do 3 apply wp_bind, wp_emit.
    apply wp_bind, (wp_preserves gen_effect); [gen_steps|].
    intros _ st2 H2.
    do 2 apply wp_bind, wp_emit. apply wp_ret.
    effects_done.
  - apply preserves_wp. intros st. cbn [StmtNode_generate_code].
    apply wp_bind, (wp_preserves gen_effect).
    { destruct i as [[e|s| | |]|]; cbn in IHi; gen_steps. }
    intros _ st1 H1.
    do 3 apply wp_bind, wp_next_label.
    apply wp_bind, wp_emit.
    apply wp_bind, (wp_preserves gen_effect).
    { destruct c as [[e|s| | |]|]; cbn in IHc; gen_steps.
      destruct s as [[e|]| | | | | |]; gen_steps. }
    intros ct st2 H2.
    do 3 apply wp_bind, wp_emit.
    apply wp_bind, (wp_preserves gen_effect); [gen_steps|].
    intros _ st3 H3.
    apply wp_bind, (wp_preserves gen_effect).
    { destruct u; cbn [when_present]; gen_steps. }
    intros _ st4 H4.
    do 2 apply wp_bind, wp_emit. apply wp_ret.
    effects_done.
  - cbn [StmtNode_generate_code]. destruct e; gen_steps.
  - cbn [StmtNode_generate_code]. gen_steps.
    apply Forall_forall. gen_steps.
Qed.


Lemma ASTNode_effect (n : ASTNode) :
  preserves gen_effect (ASTNode_generate_code n).
Proof.
  induction n as [e|s|rt name params body|args|units IH]
    using ASTNode_nested_ind; cbn [ASTNode_generate_code].
  - apply gen_effect_expr.
  - apply StmtNode_effect.
  - destruct body as [statements|]; cbn [when_present]; gen_steps.
    apply Forall_forall. intros s _. apply StmtNode_effect.
  - gen_steps.
  - gen_steps.
Qed.

(** ** Variable references *)

Ltac run_monad :=
  unfold bind, ret, gets, emit, next_temp, next_label, modify;
  cbn beta iota zeta delta [fst snd].

Lemma VarNode_hit name ty cached c :
  force_fresh_load c = false ->
  symbol_to_temp c !! name = Some cached ->
  ExprNode_generate_code (VarNode name ty None) c =
  (cached, set_last_access (insert name cached) (set_temp_count Z.succ c)).
Proof.
  intros Hf Hc. cbn [ExprNode_generate_code]. run_monad.
  rewrite Hf, Hc. reflexivity.
Qed.

Lemma VarNode_miss name ty c :
  force_fresh_load c = true \/ symbol_to_temp c !! name = None ->
  ExprNode_generate_code (VarNode name ty None) c =
  let temp := "t" +:+ to_string (temp_count c) in
  (temp,
   set_last_access (insert name temp)
     (set_symbol_to_temp (insert name temp)
        (set_outcode (fun o => (o ++ [temp +:+ " = " +:+ name])%list)
           (set_temp_count Z.succ c)))).
Proof.
  intros H. cbn [ExprNode_generate_code]. run_monad.
  destruct (force_fresh_load c); [reflexivity|].
  destruct H as [H|H]; [discriminate|]. rewrite H. reflexivity.
Qed.

Lemma VarNode_indexed name ty i c :
  ExprNode_generate_code (VarNode name ty (Some i)) c =
  let temp := "t" +:+ to_string (temp_count c) in
  let r := ExprNode_generate_code i (set_temp_count Z.succ c) in
  (temp,
   set_last_access (insert name temp)
     (set_symbol_to_temp (insert name temp)
        (set_outcode
           (fun o => (o ++ [temp +:+ " = " +:+ name +:+ "[" +:+ fst r
                            +:+ "]"])%list)
           (snd r)))).
Proof.
  cbn [ExprNode_generate_code]. run_monad.
  destruct (ExprNode_generate_code i (set_temp_count Z.succ c)) as [idx c1].
  reflexivity.
Qed.

(** C2, as amended.  An indexed variable access never looks at the flag or
    at the cache entry of its base name: it always takes the next fresh
    temporary, translates the index and writes the load
    [tN = name[idx]].  It does store that temporary in the cache (and in
    the refresh record) under the base name. *)
Theorem indexed_access_loads_fresh_and_caches (name ty : string) (i : ExprNode)
    (c : Ctx) :
  let temp := "t" +:+ to_string (temp_count c) in
  let ri := ExprNode_generate_code i (set_temp_count Z.succ c) in
  let r := ExprNode_generate_code (VarNode name ty (Some i)) c in
  fst r = temp /\
  outcode (snd r) =
    (outcode (snd ri) ++
     [temp +:+ " = " +:+ name +:+ "[" +:+ fst ri +:+ "]"])%list /\
  symbol_to_temp (snd r) = <[name := temp]> (symbol_to_temp (snd ri)) /\
  symbol_to_temp (snd r) !! name = Some temp /\
  last_access (snd r) = <[name := temp]> (last_access (snd ri)).
Proof.
  cbv zeta. rewrite VarNode_indexed. cbn.
  repeat split. apply lookup_insert_eq.
Qed.

(** C2, as stated, fails: from the fresh context the read [a[0]] leaves the
    cache entry [a -> t0] behind, where there was none. *)
Lemma indexed_access_updates_cache_counterexample :
  symbol_to_temp fresh_ctx !! "a" = None /\
  symbol_to_temp (snd (ExprNode_generate_code a_at_0 fresh_ctx)) !! "a"
    = Some "t0" /\
  outcode (snd (ExprNode_generate_code a_at_0 fresh_ctx))
    = ["t1 = 0"; "t0 = a[t1]"].
Proof. vm_compute. repeat split. Qed.

(** C5.  From the fresh context, [if (x) { y = 1; } else { y = 2; }] is
    translated to exactly these eleven lines. *)
Theorem if_else_example_lines :
  outcode (snd (StmtNode_generate_code if_x_y fresh_ctx)) =
  ["t0 = x"; "if t0 goto L0"; "goto L1"; "L0:"; "t1 = 1"; "y = t1";
   "goto L2"; "L1:"; "t2 = 2"; "y = t2"; "L2:"].
Proof. vm_compute. reflexivity. Qed.

(** ** Calls and the cache *)

Lemma keeps_cache_refl c : keeps_cache c c.
Proof. by split. Qed.

Lemma keeps_cache_trans a b c :
  keeps_cache a b -> keeps_cache b c -> keeps_cache a c.
Proof. intros [? ?] [? ?]. split; congruence. Qed.

Ltac keeps_steps :=
  repeat first
    [ progress intros
    | assumption
    | apply (preserves_bind keeps_cache keeps_cache_trans)
    | apply (preserves_ret keeps_cache keeps_cache_refl)
    | (intros ?c; split; reflexivity) ].

Lemma FuncCallNode_call_keeps_cache f ty n :
  preserves keeps_cache (FuncCallNode_call f ty n).
Proof. unfold FuncCallNode_call. destruct (String.eqb ty "void"); keeps_steps. Qed.

Lemma FuncCallNode_argument_keeps_cache a :
  scalar_or_const a = true -> preserves keeps_cache (FuncCallNode_argument a).
Proof.
  unfold FuncCallNode_argument.
  destruct a as [name ty [i|]|v ty| | | |]; try discriminate; intros _.
  - keeps_steps.
  - cbn [ExprNode_generate_code]. keeps_steps.
Qed.

(** C3, as amended.  A call does not invalidate the cache.  The call
    instruction itself leaves the cache as the translation of the
    arguments left it; and after a call whose arguments are scalar
    variable references or constants the cache is the one from before the
    call, so that a scalar read of a variable cached before the call gives
    the pre-call temporary and writes no load. *)
Theorem call_keeps_cached_temps (f ty : string) (args : list ExprNode)
    (x xty cached : string) (c : Ctx) :
  Forall (fun a => scalar_or_const a = true) args ->
  force_fresh_load c = false ->
  symbol_to_temp c !! x = Some cached ->
  let c2 := snd (ExprNode_generate_code (FuncCallNode f ty args) c) in
  let r := ExprNode_generate_code (VarNode x xty None) c2 in
  symbol_to_temp c2 = symbol_to_temp c /\
  fst r = cached /\
  outcode (snd r) = outcode c2 /\
  (forall n c1, symbol_to_temp (snd (FuncCallNode_call f ty n c1))
                = symbol_to_temp c1).
Proof.
  intros Hargs Hf Hx. cbv zeta.
  assert (keeps_cache c
            (snd (ExprNode_generate_code (FuncCallNode f ty args) c)))
    as [Hs Hff].
  { rewrite FuncCallNode_generate_code_eq.
    apply (preserves_bind keeps_cache keeps_cache_trans).
    - apply (preserves_for_each keeps_cache keeps_cache_refl keeps_cache_trans).
      eapply Forall_impl; [exact Hargs|].
      intros a Ha. by apply FuncCallNode_argument_keeps_cache.
    - intros _. apply FuncCallNode_call_keeps_cache. }
  split; [exact Hs|].
  rewrite (VarNode_hit x xty cached) by congruence.
  cbn. repeat split.
  intros n c1. apply FuncCallNode_call_keeps_cache.
Qed.

Lemma call_keeps_cached_temps_witness :
  let c2 := snd (ExprNode_generate_code call_g_y_1 ctx_x_cached) in
  fst (ExprNode_generate_code x_read c2) = "t0" /\
  outcode (snd (ExprNode_generate_code x_read c2)) = outcode c2.
Proof.
  assert (Forall (fun a => scalar_or_const a = true)
            [VarNode "y" "int" None; ConstNode "1" "int"]) as Hargs
    by (repeat constructor).
  assert (force_fresh_load ctx_x_cached = false) as Hf by reflexivity.
  assert (symbol_to_temp ctx_x_cached !! "x" = Some "t0") as Hx
    by (vm_compute; reflexivity).
  destruct (call_keeps_cached_temps "g" "int" _ "x" "int" "t0" ctx_x_cached
              Hargs Hf Hx) as (_ & H1 & H2 & _).
  split; [exact H1|exact H2].
Defined.

(** C3, as stated, fails: [x] is read into [t0], then [f()] is called, and
    the next read of [x] gives [t0] again without any reload. *)
Lemma call_keeps_cache_counterexample :
  let c2 := snd (ExprNode_generate_code call_f ctx_x_cached) in
  let r := ExprNode_generate_code x_read c2 in
  outcode c2 = ["t0 = x"; "t1 = call f, 0"] /\
  fst r = "t0" /\
  outcode (snd r) = outcode c2.
Proof. vm_compute. repeat split. Qed.

(** ** Temporaries across function units *)


(** ** Binary operations *)

(** C9.  The lines of a binary operation are the lines of its left
    operand, then the lines of its right operand (translated in the
    context the left operand left), then the one line
    [tN = left OP right]; whatever the left operand writes, a call nested
    in it included, comes before every line of the right operand. *)
Theorem binary_op_left_then_right (op ty : string) (l r : ExprNode) (c : Ctx) :
  let rl := ExprNode_generate_code l c in
  let rr := ExprNode_generate_code r (snd rl) in
  let temp := "t" +:+ to_string (temp_count (snd rr)) in
  let line := temp +:+ " = " +:+ fst rl +:+ " " +:+ op +:+ " " +:+ fst rr in
  exists ls_l ls_r,
    outcode (snd rl) = (outcode c ++ ls_l)%list /\
    outcode (snd rr) = (outcode (snd rl) ++ ls_r)%list /\
    ExprNode_generate_code (BinaryOpNode op l r ty) c =
      (temp,
       set_outcode (fun o => (o ++ [line])%list)
         (set_temp_count Z.succ (snd rr))) /\
    outcode (snd (ExprNode_generate_code (BinaryOpNode op l r ty) c)) =
      (outcode c ++ ls_l ++ ls_r ++ [line])%list.
Proof.
  cbv zeta.
  destruct (ExprNode_effect l c) as (_ & _ & ls_l & Hl & _).
  destruct (ExprNode_effect r (snd (ExprNode_generate_code l c)))
    as (_ & _ & ls_r & Hr & _).
  exists ls_l, ls_r. split; [exact Hl|]. split; [exact Hr|].
  assert (ExprNode_generate_code (BinaryOpNode op l r ty) c =
          ("t" +:+ to_string
             (temp_count
                (snd (ExprNode_generate_code r
                        (snd (ExprNode_generate_code l c))))),
           set_outcode
             (fun o =>
                (o ++ [("t" +:+ to_string
                          (temp_count
                             (snd (ExprNode_generate_code r
                                     (snd (ExprNode_generate_code l c))))))
                       +:+ " = " +:+ fst (ExprNode_generate_code l c)
                       +:+ " " +:+ op +:+ " "
                       +:+ fst (ExprNode_generate_code r
                                  (snd (ExprNode_generate_code l c)))])%list)
             (set_temp_count Z.succ
                (snd (ExprNode_generate_code r
                        (snd (ExprNode_generate_code l c))))))) as E.
  { cbn [ExprNode_generate_code]. run_monad.
    destruct (ExprNode_generate_code l c) as [tl c1]. cbn [fst snd].
    destruct (ExprNode_generate_code r c1) as [tr c2]. reflexivity. }
  split; [exact E|].
  rewrite E. cbn [snd set_outcode set_temp_count outcode].
  rewrite Hr, Hl. by rewrite <- !app_assoc.
Qed.

(** ** Labels *)

Lemma label_defs_lookup k ls i :
  ls !! i = Some (label_line k) -> (1 <= label_defs k ls)%nat.
Proof.
  revert i. induction ls as [|line ls IH]; intros [|i] H; try discriminate.
  - injection H as ->. rewrite label_defs_cons_label, decide_True by done. lia.
  - cbn in H. apply IH in H.
    change (line :: ls) with ([line] ++ ls)%list. rewrite label_defs_app. lia.
Qed.

Lemma label_defs_two_lookups k ls i j :
  i <> j -> ls !! i = Some (label_line k) -> ls !! j = Some (label_line k) ->
  (2 <= label_defs k ls)%nat.
Proof.
  revert i j. induction ls as [|line ls IH]; intros [|i] [|j] Hne Hi Hj;
    try discriminate; try congruence.
  - injection Hi as ->. cbn in Hj. apply label_defs_lookup in Hj.
    rewrite label_defs_cons_label, decide_True by done. lia.
  - injection Hj as ->. cbn in Hi. apply label_defs_lookup in Hi.
    rewrite label_defs_cons_label, decide_True by done. lia.
  - cbn in Hi, Hj. assert (i <> j) as Hne' by congruence.
    pose proof (IH i j Hne' Hi Hj).
    change (line :: ls) with ([line] ++ ls)%list. rewrite label_defs_app. lia.
Qed.

(** C8.  Whatever node is translated, a program of several function units
    included, the label counter never goes down, and the lines written
    define every label number taken from the counter exactly once and no
    other label: two label definitions at different places of the output
    carry different numbers. *)
Theorem labels_never_repeat (n : ASTNode) (c : Ctx) :
  let c' := snd (ASTNode_generate_code n c) in
  label_count c <= label_count c' /\
  (exists ls,
     outcode c' = (outcode c ++ ls)%list /\
     (forall k, label_defs k ls =
                if decide (label_count c <= k < label_count c') then 1%nat
                else 0%nat) /\
     (forall i j a b,
        i <> j -> ls !! i = Some (label_line a) ->
        ls !! j = Some (label_line b) -> a <> b)) /\
  (forall rt name params c0,
     label_count (snd (FuncDeclNode_enter rt name params c0))
     = label_count c0).
Proof.
  cbv zeta. destruct (ASTNode_effect n c) as (_ & Hl & ls & Ho & Hd).
  split; [exact Hl|]. split; [|reflexivity].
  exists ls. split; [exact Ho|]. split; [exact Hd|].
  intros i j a b Hne Hi Hj <-.
  pose proof (label_defs_two_lookups a ls i j Hne Hi Hj) as H2.
  rewrite Hd in H2. case_decide; lia.
Qed.

(** Two function units with one [if] each: the labels of the second go on
    from [L3] (and its temporaries from [t3]). *)
Example two_ifs_example :
  outcode (snd (ASTNode_generate_code two_ifs fresh_ctx)) =
  ["// Function: void f(int x, int y)"; "t0 = x"; "if t0 goto L0";
   "goto L1"; "L0:"; "t1 = 1"; "y = t1"; "goto L2"; "L1:"; "t2 = 2";
   "y = t2"; "L2:"; ""; "// Function: void g()";
   "// Declaration: int x"; "// Declaration: int a[10]"; "t3 = x";
   "if t3 goto L3"; "goto L4"; "L3:"; "t4 = 1"; "y = t4"; "goto L5";
   "L4:"; "t5 = 2"; "y = t5"; "L5:"; ""].
Proof. vm_compute. reflexivity. Qed.

(** ** Calls *)

Lemma FuncCallNode_argument_scalar name vty c :
  FuncCallNode_argument (VarNode name vty None) c =
  let temp := "t" +:+ to_string (temp_count c) in
  (tt,
   set_outcode (fun o => (o ++ ["param " +:+ temp])%list)
     (set_outcode (fun o => (o ++ [temp +:+ " = " +:+ name])%list)
        (set_temp_count Z.succ c))).
Proof. reflexivity. Qed.

Lemma FuncCallNode_argument_indexed name vty i c :
  FuncCallNode_argument (VarNode name vty (Some i)) c =
  let temp := "t" +:+ to_string (temp_count c) in
  let ri := ExprNode_generate_code i (set_temp_count Z.succ c) in
  (tt,
   set_outcode (fun o => (o ++ ["param " +:+ temp])%list)
     (set_outcode
        (fun o => (o ++ [temp +:+ " = " +:+ name +:+ "[" +:+ fst ri
                         +:+ "]"])%list)
        (snd ri))).
Proof.
  unfold FuncCallNode_argument. run_monad.
  destruct (ExprNode_generate_code i (set_temp_count Z.succ c)). reflexivity.
Qed.

Lemma FuncCallNode_argument_other a c :
  not_a_variable a ->
  FuncCallNode_argument a c =
  let ra := ExprNode_generate_code a c in
  (tt, set_outcode (fun o => (o ++ ["param " +:+ fst ra])%list) (snd ra)).
Proof.
  intros Ha. unfold FuncCallNode_argument.
  destruct a; try contradiction; run_monad;
    match goal with
    | |- context [ExprNode_generate_code ?e c] =>
        destruct (ExprNode_generate_code e c)
    end; reflexivity.
Qed.

Lemma FuncCallNode_argument_block a c :
  exists b,
    outcode (snd (FuncCallNode_argument a c)) = (outcode c ++ block_lines b)%list
    /\ argument_block a b.
Proof.
  assert (not_a_variable a ->
          exists b,
            outcode (snd (FuncCallNode_argument a c))
            = (outcode c ++ block_lines b)%list /\ argument_block a b)
    as Hother.
  { intros Ha. rewrite FuncCallNode_argument_other by exact Ha. cbv zeta.
    destruct (ExprNode_effect a c) as (_ & _ & ls & Ho & _).
    exists (ls, fst (ExprNode_generate_code a c)).
    split; [|destruct a; [contradiction|exact I..]].
    unfold block_lines. cbn [fst snd].
    cbn [set_outcode outcode]. rewrite Ho. by rewrite <- !app_assoc. }
  destruct a as [name vty [i|]| | | | |]; try (apply Hother; exact I).
  - rewrite FuncCallNode_argument_indexed. cbv zeta.
    destruct (ExprNode_effect i (set_temp_count Z.succ c))
      as (_ & _ & ls & Ho & _).
    exists ((ls ++ [("t" +:+ to_string (temp_count c)) +:+ " = " +:+ name
                    +:+ "["
                    +:+ fst (ExprNode_generate_code i
                               (set_temp_count Z.succ c))
                    +:+ "]"])%list,
            "t" +:+ to_string (temp_count c)).
    split; [|exact I]. unfold block_lines.
    cbn [fst snd set_outcode set_temp_count outcode] in Ho |- *.
    rewrite Ho. by rewrite <- !app_assoc.
  - rewrite FuncCallNode_argument_scalar.
    exists ([("t" +:+ to_string (temp_count c)) +:+ " = " +:+ name],
            "t" +:+ to_string (temp_count c)).
    split; [|reflexivity]. unfold block_lines.
    cbn [fst snd set_outcode set_temp_count outcode].
    by rewrite <- !app_assoc.
Qed.

Lemma FuncCallNode_arguments_blocks args c :
  exists blocks,
    Forall2 argument_block args blocks /\
    outcode (snd (for_each FuncCallNode_argument args c)) =
    (outcode c ++ concat (map block_lines blocks))%list.
Proof.
  revert c. induction args as [|a args IH]; intros c.
  - exists []. split; [constructor|]. cbn. by rewrite app_nil_r.
  - cbn [for_each]. unfold bind.
    destruct (FuncCallNode_argument_block a c) as (b & Hb & Hab).
    destruct (FuncCallNode_argument a c) as [u c1]. cbn [snd] in Hb.
    destruct (IH c1) as (blocks & Hall & Ho).
    exists (b :: blocks). split; [by constructor|].
    rewrite Ho, Hb. cbn [map concat]. by rewrite <- !app_assoc.
Qed.

(** C7.  A call is its argument loop followed by the call instruction.
    The loop writes one block per argument, in argument order, each closed
    by exactly one [param] line.  An argument that is a variable reference
    takes the next fresh temporary and is loaded into it, whatever the
    cache and the flag hold (and without touching them); any other
    argument is translated by its own [generate_code].  A [void] call
    writes [call name, argcount] and has no result temporary; any other
    call takes a fresh temporary [tN] and writes
    [tN = call name, argcount]. *)
Theorem call_translation (f ty : string) (args : list ExprNode) (c : Ctx) :
  let c_args := snd (for_each FuncCallNode_argument args c) in
  let argc := to_string (Z.of_nat (length args)) in
  let temp := "t" +:+ to_string (temp_count c_args) in
  (exists blocks,
     Forall2 argument_block args blocks /\
     length blocks = length args /\
     outcode c_args = (outcode c ++ concat (map block_lines blocks))%list) /\
  (forall name vty c0,
     FuncCallNode_argument (VarNode name vty None) c0 =
     let t := "t" +:+ to_string (temp_count c0) in
     (tt,
      set_outcode (fun o => (o ++ ["param " +:+ t])%list)
        (set_outcode (fun o => (o ++ [t +:+ " = " +:+ name])%list)
           (set_temp_count Z.succ c0)))) /\
  (forall name vty i c0,
     FuncCallNode_argument (VarNode name vty (Some i)) c0 =
     let t := "t" +:+ to_string (temp_count c0) in
     let ri := ExprNode_generate_code i (set_temp_count Z.succ c0) in
     (tt,
      set_outcode (fun o => (o ++ ["param " +:+ t])%list)
        (set_outcode
           (fun o => (o ++ [t +:+ " = " +:+ name +:+ "[" +:+ fst ri
                            +:+ "]"])%list)
           (snd ri)))) /\
  (forall a c0,
     not_a_variable a ->
     FuncCallNode_argument a c0 =
     let ra := ExprNode_generate_code a c0 in
     (tt, set_outcode (fun o => (o ++ ["param " +:+ fst ra])%list) (snd ra))) /\
  (ty = "void" ->
   ExprNode_generate_code (FuncCallNode f ty args) c =
   ("",
    set_outcode (fun o => (o ++ ["call " +:+ f +:+ ", " +:+ argc])%list)
      c_args)) /\
  (ty <> "void" ->
   ExprNode_generate_code (FuncCallNode f ty args) c =
   (temp,
    set_outcode
      (fun o => (o ++ [temp +:+ " = call " +:+ f +:+ ", " +:+ argc])%list)
      (set_temp_count Z.succ c_args))).
Proof.
  cbv zeta. split.
  { destruct (FuncCallNode_arguments_blocks args c) as (blocks & Hall & Ho).
    exists blocks. split; [exact Hall|]. split; [|exact Ho].
    symmetry. by eapply Forall2_length. }
  split; [intros; apply FuncCallNode_argument_scalar|].
  split; [intros; apply FuncCallNode_argument_indexed|].
  split; [intros; by apply FuncCallNode_argument_other|].
  split; intros Hty; rewrite FuncCallNode_generate_code_eq;
    unfold bind at 1;
    destruct (for_each FuncCallNode_argument args c) as [u c1];
    unfold FuncCallNode_call.
  - subst ty. reflexivity.
  - apply String.eqb_neq in Hty. rewrite Hty. reflexivity.
Qed.

(** ** Loop headers and the cache *)

Lemma copy_last_access_empty la : copy_last_access la ∅ = la.
Proof.
  unfold copy_last_access.
  apply (map_fold_weak_ind (fun r m => r = m)); [done|].
  by intros i x m r _ ->.
Qed.

Lemma ForNode_header_some cnd c :
  ForNode_header (Some cnd) c =
  let rc := ForNode_condition cnd
              (set_force_fresh_load true
                 (set_last_access (fun _ => ∅) c)) in
  (fst rc,
   set_symbol_to_temp (fun _ => last_access (snd rc))
     (set_force_fresh_load false (snd rc))).
Proof.
  unfold ForNode_header. run_monad.
  destruct (ForNode_condition cnd _) as [ct c2]. cbn [fst snd].
  unfold set_symbol_to_temp, set_force_fresh_load. cbn.
  by rewrite copy_last_access_empty.
Qed.


(** C10.  A [for] whose condition is an expression statement around a null
    expression takes the literal [1] as its condition, writes no line for
    the condition, and still replaces the cache by the (empty) refresh
    record: the body starts from an empty cache.  With no condition node
    at all the condition is [1] as well, and the body starts from the
    cache as the init part and the labels left it. *)
Theorem for_null_condition_clears_cache (init : option ASTNode)
    (update : option ExprNode) (body : option StmtNode) (c : Ctx) :
  let c0 := snd (ForNode_init init c) in
  let labels := fst (loop_labels c0) in
  let c1 := snd (loop_labels c0) in
  let h := mkCtx (outcode c1) ∅ (temp_count c1) (label_count c1) false ∅ in
  StmtNode_generate_code
    (ForNode init (Some (Stmt (ExprStmtNode None))) update body) c =
    loop_rest "1" (fst (fst labels)) (snd (fst labels)) (snd labels)
      body update h /\
  StmtNode_generate_code (ForNode init None update body) c =
    loop_rest "1" (fst (fst labels)) (snd (fst labels)) (snd labels)
      body update c1 /\
  symbol_to_temp c1 = symbol_to_temp c0 /\
  outcode c1 =
    (outcode c0 ++ [label_line (label_count c0)])%list.
Proof.
  cbv zeta. split; [|split; [|by split]].
  - rewrite ForNode_generate_code_eq. unfold bind at 1.
    destruct (ForNode_init init c) as [u c0]. cbn [snd].
    unfold loop_labels. run_monad. rewrite ForNode_header_some.
    reflexivity.
  - rewrite ForNode_generate_code_eq. unfold bind at 1.
    destruct (ForNode_init init c) as [u c0]. cbn [snd].
    unfold loop_labels. run_monad. reflexivity.
Qed.

(** The two cases side by side, entered with [x] cached in [t0]. *)
Example for_null_condition_example :
  let r := StmtNode_generate_code
             (ForNode None (Some (Stmt (ExprStmtNode None))) None None)
             ctx_x_cached in
  outcode (snd r) =
    ["t0 = x"; "L0:"; "if 1 goto L1"; "goto L2"; "L1:"; "goto L0"; "L2:"] /\
  symbol_to_temp (snd r) !! "x" = None.
Proof. vm_compute. by split. Qed.

Example for_no_condition_example :
  let r := StmtNode_generate_code (ForNode None None None None)
             ctx_x_cached in
  outcode (snd r) =
    ["t0 = x"; "L0:"; "if 1 goto L1"; "goto L2"; "L1:"; "goto L0"; "L2:"] /\
  symbol_to_temp (snd r) !! "x" = Some "t0".
Proof. vm_compute. by split. Qed.

(** * Further properties *)

(** ** Tools *)

(** Induction on expressions that also gives, for the arguments of a call,
    the index below an argument that is a variable reference. *)
Lemma ExprNode_args_ind (P : ExprNode -> Prop) :
  (forall name ty index, opt_all P index -> P (VarNode name ty index)) ->
  (forall value ty, P (ConstNode value ty)) ->
  (forall op l r ty, P l -> P r -> P (BinaryOpNode op l r ty)) ->
  (forall op e ty, P e -> P (UnaryOpNode op e ty)) ->
  (forall name lty index rhs ty,
     opt_all P index -> P rhs -> P (AssignNode name lty index rhs ty)) ->
  (forall name ty args,
     Forall (fun a => P a /\ arg_index_all P a) args ->
     P (FuncCallNode name ty args)) ->
  forall e, P e.
Proof.
  intros HVar HConst HBin HUn HAssign HCall e.
  enough (P e /\ arg_index_all P e) as [H _] by exact H.
  induction e as [name ty index IH| | | |name lty index rhs ty IH IHr
                 |name ty args IH] using ExprNode_nested_ind.
  - assert (opt_all P index) as Hi by (destruct index; cbn in *; tauto).
    split; [by apply HVar|]. destruct index; [exact Hi|exact I].
  - split; [apply HConst|exact I].
  - split; [apply HBin; tauto|exact I].
  - split; [apply HUn; tauto|exact I].
  - split; [|exact I]. apply HAssign; [|tauto].
    destruct index; cbn in *; tauto.
  - split; [by apply HCall|exact I].
Qed.

(** One step of a walk through monadic code; a recursive call is taken
    with the fact about it that is among the hypotheses. *)
Ltac wp_step :=
  cbv beta iota;
  lazymatch goal with
  | |- wp (bind _ _) _ _ => apply wp_bind
  | |- wp (ret _) _ _ => apply wp_ret
  | |- wp (emit _) _ _ => apply wp_emit
  | |- wp (modify _) _ _ => apply wp_modify
  | |- wp (gets _) _ _ => apply wp_gets
  | |- wp next_temp _ _ => apply wp_next_temp
  | |- wp next_label _ _ => apply wp_next_label
  | |- wp ?m _ _ =>
      match goal with
      | H : preserves ?R m |- _ =>
          apply (wp_preserves R m); [exact H|]; intros ? ? ?
      end
  end; cbv beta.

Ltac wp_walk := repeat wp_step.

Lemma for_each_app {A B} (f : A -> M B) (l1 l2 : list A) (c : Ctx) :
  for_each f (l1 ++ l2) c = for_each f l2 (snd (for_each f l1 c)).
Proof.
  revert c. induction l1 as [|x l1 IH]; intros c; [reflexivity|].
  cbn [for_each app]. unfold bind. destruct (f x c) as [b c1]. apply IH.
Qed.

(** ** The counters move by what the tree says *)

Ltac counts_done :=
  unfold counts_by in *; ctx_simpl;
  repeat match goal with H : _ /\ _ |- _ => destruct H end;
  split; lia.

Lemma counts_for_each {A B} (f : A -> M B) (gt gl : A -> Z) (l : list A) :
  Forall (fun x => preserves (counts_by (gt x) (gl x)) (f x)) l ->
  preserves
    (counts_by (foldr (fun a n => gt a + n) 0 l)
               (foldr (fun a n => gl a + n) 0 l))
    (for_each f l).
Proof.
  induction 1 as [|x l Hx _ IH]; apply preserves_wp; intros c;
    cbn [for_each foldr]; wp_walk; counts_done.
Qed.

Lemma foldr_zero {A} (l : list A) : foldr (fun _ n => 0 + n) 0 l = 0.
Proof. induction l as [|x l IH]; [reflexivity|]. cbn. exact IH. Qed.

Lemma ExprNode_counts (e : ExprNode) :
  preserves (counts_by (ExprNode_temps e) 0) (ExprNode_generate_code e).
Proof.
  induction e as [name ty index IH|value ty|op l r ty IHl IHr|op e ty IHe
                 |name lty index rhs ty IH IHr|name ty args IH]
    using ExprNode_args_ind; apply preserves_wp; intros c.
  - cbn [ExprNode_generate_code ExprNode_temps]. do 4 wp_step.
    destruct index as [i|]; cbn in IH; cbv beta iota; repeat case_match;
      wp_walk; counts_done.
  - cbn [ExprNode_generate_code ExprNode_temps]. wp_walk. counts_done.
  - cbn [ExprNode_generate_code ExprNode_temps]. wp_walk. counts_done.
  - cbn [ExprNode_generate_code ExprNode_temps]. wp_walk. counts_done.
  - cbn [ExprNode_generate_code ExprNode_temps].
    destruct index as [i|]; cbn in IH; wp_walk; counts_done.
  - rewrite FuncCallNode_generate_code_eq. cbn [ExprNode_temps].
    assert (preserves
              (counts_by (foldr (fun a n => ExprNode_temps a + n) 0 args) 0)
              (for_each FuncCallNode_argument args)) as Hargs.
    { pose proof (counts_for_each FuncCallNode_argument ExprNode_temps
                    (fun _ => 0) args) as Hsum.
      rewrite foldr_zero in Hsum. apply Hsum.
      eapply Forall_impl; [exact IH|]. cbn beta. intros a [Ha Hi].
      apply preserves_wp. intros c0. unfold FuncCallNode_argument.
      destruct a as [n t [i|]| | | | |]; cbn in Hi;
        cbn [ExprNode_temps] in *; wp_walk; counts_done. }
    unfold FuncCallNode_call.
    destruct (String.eqb ty "void"); wp_walk; counts_done.
Qed.

Lemma counts_when_present {A B} (f : A -> M B) (gt gl : A -> Z) (o : option A) :
  opt_all (fun x => preserves (counts_by (gt x) (gl x)) (f x)) o ->
  preserves (counts_by (opt_count gt o) (opt_count gl o)) (when_present f o).
Proof.
  destruct o as [x|]; cbn [opt_all opt_count when_present]; intros H;
    apply preserves_wp; intros c; wp_walk; counts_done.
Qed.

Lemma counts_when_present_expr (o : option ExprNode) :
  preserves (counts_by (opt_count ExprNode_temps o) 0)
    (when_present ExprNode_generate_code o).
Proof.
  destruct o as [e|]; cbn [opt_count when_present]; apply preserves_wp;
    intros c; [pose proof (ExprNode_counts e)|]; wp_walk; counts_done.
Qed.

Lemma StmtNode_counts (s : StmtNode) :
  preserves (counts_by (StmtNode_temps s) (StmtNode_labels s))
    (StmtNode_generate_code s).
Proof.
  induction s as [e|l IH|c t e IHt IHe|c b IHb|i c u b IHi IHc IHb|e|ty vars]
    using StmtNode_nested_ind; apply preserves_wp; intros st.
  - cbn [StmtNode_generate_code StmtNode_temps StmtNode_labels].
    pose proof (counts_when_present_expr e). wp_walk. counts_done.
  - cbn [StmtNode_generate_code StmtNode_temps StmtNode_labels].
    pose proof (counts_for_each _ _ _ l IH). wp_walk. counts_done.
  - cbn [StmtNode_generate_code StmtNode_temps StmtNode_labels].
    pose proof (ExprNode_counts c).
    pose proof (counts_when_present _ _ _ t IHt).
    pose proof (counts_when_present _ _ _ e IHe).
    wp_walk. unfold opt_count in *. counts_done.
  - cbn [StmtNode_generate_code StmtNode_temps StmtNode_labels].
    pose proof (ExprNode_counts c).
    pose proof (counts_when_present _ _ _ b IHb).
    wp_walk. unfold opt_count in *. counts_done.
  - rewrite ForNode_generate_code_eq.
    cbn [StmtNode_temps StmtNode_labels].
    assert (preserves
              (counts_by
                 match i with
                 | Some (Stmt x) => StmtNode_temps x
                 | Some (Expr x) => ExprNode_temps x
                 | _ => 0
                 end
                 match i with Some (Stmt x) => StmtNode_labels x | _ => 0 end)
              (ForNode_init i)) as Hinit.
    { apply preserves_wp. intros c0. unfold ForNode_init.
      destruct i as [[x|x| | |]|]; cbn in IHi;
        try pose proof (ExprNode_counts x); wp_walk; counts_done. }
    assert (preserves
              (counts_by
                 match c with
                 | Some (Stmt x) => StmtNode_temps x
                 | Some (Expr x) => ExprNode_temps x
                 | _ => 0
                 end
                 match c with Some (Stmt x) => StmtNode_labels x | _ => 0 end)
              (ForNode_header c)) as Hheader.
    { apply preserves_wp. intros c0. unfold ForNode_header, ForNode_condition.
      destruct c as [[x|x| | |]|]; cbn in IHc;
        try pose proof (ExprNode_counts x); [|destruct x as [[x|]| | | | | |]|..];
        try pose proof (ExprNode_counts x);
        cbn [StmtNode_temps StmtNode_labels opt_count] in *;
        wp_walk; counts_done. }
    pose proof (counts_when_present _ _ _ b IHb).
    pose proof (counts_when_present_expr u).
    unfold loop_rest. wp_walk. unfold opt_count in *. counts_done.
  - cbn [StmtNode_generate_code StmtNode_temps StmtNode_labels].
    destruct e as [e|]; cbn [opt_count];
      [pose proof (ExprNode_counts e)|]; wp_walk; counts_done.
  - cbn [StmtNode_generate_code StmtNode_temps StmtNode_labels].
    assert (preserves (counts_by 0 0)
              (for_each (fun v => emit (decl_line ty v)) vars)) as Hd.
    { pose proof (counts_for_each (fun v => emit (decl_line ty v))
                    (fun _ => 0) (fun _ => 0) vars) as Hsum.
      rewrite foldr_zero in Hsum. apply Hsum. apply Forall_forall.
      intros v _. apply preserves_wp. intros c0. wp_walk. counts_done. }
    wp_walk. counts_done.
Qed.

Lemma ASTNode_counts (n : ASTNode) :
  preserves (counts_by (ASTNode_temps n) (ASTNode_labels n))
    (ASTNode_generate_code n).
Proof.
  induction n as [e|s|rt name params body|args|units IH]
    using ASTNode_nested_ind.
  - cbn [ASTNode_generate_code ASTNode_temps ASTNode_labels].
    apply ExprNode_counts.
  - cbn [ASTNode_generate_code ASTNode_temps ASTNode_labels].
    apply StmtNode_counts.
  - rewrite FuncDeclNode_generate_code_eq.
    cbn [ASTNode_temps ASTNode_labels].
    unfold FuncDeclNode_enter, FuncDeclNode_body.
    apply preserves_wp. intros c.
    destruct body as [l|]; cbn [when_present].
    + pose proof (counts_for_each StmtNode_generate_code StmtNode_temps
                    StmtNode_labels l) as Hl.
      assert (Forall
                (fun x => preserves
                            (counts_by (StmtNode_temps x) (StmtNode_labels x))
                            (StmtNode_generate_code x)) l) as Hall.
      { apply Forall_forall. intros x _. apply StmtNode_counts. }
      specialize (Hl Hall). wp_walk. counts_done.
    + wp_walk. counts_done.
  - apply preserves_wp. intros c. cbn [ASTNode_generate_code].
    wp_walk. cbn [ASTNode_temps ASTNode_labels]. counts_done.
  - apply preserves_wp. intros c.
    change (ASTNode_generate_code (ProgramNode units))
      with (for_each ASTNode_generate_code units ;; ret "").
    cbn [ASTNode_temps ASTNode_labels].
    pose proof (counts_for_each _ _ _ units IH). wp_walk. counts_done.
Qed.

(** X1.  The temporaries an expression takes from the counter are fixed by
    the expression alone: whatever the cache and the flag hold, the
    counter moves by [ExprNode_temps e] (a cache hit still takes its
    number), and the label counter does not move. *)
Theorem expression_temps_fixed (e : ExprNode) (c : Ctx) :
  temp_count (snd (ExprNode_generate_code e c))
    = temp_count c + ExprNode_temps e /\
  label_count (snd (ExprNode_generate_code e c)) = label_count c /\
  (forall c2,
     temp_count c2 = temp_count c ->
     temp_count (snd (ExprNode_generate_code e c2))
     = temp_count (snd (ExprNode_generate_code e c))).
Proof.
  destruct (ExprNode_counts e c) as [Ht Hl].
  split; [exact Ht|]. split; [lia|].
  intros c2 H2. destruct (ExprNode_counts e c2) as [Ht2 _]. lia.
Qed.

(** X2.  For every node, a whole program included, the counters move by
    what the tree says: the temporary counter by the temporaries of the
    expressions translated, the label counter by three for every [if],
    [while] and [for] translated; neither depends on the context. *)
Theorem node_counters_fixed (n : ASTNode) (c : Ctx) :
  temp_count (snd (ASTNode_generate_code n c))
    = temp_count c + ASTNode_temps n /\
  label_count (snd (ASTNode_generate_code n c))
    = label_count c + ASTNode_labels n.
Proof. apply ASTNode_counts. Qed.

(** ** The forced-fresh flag *)

Ltac flag_done :=
  unfold flag_stays_clear, keeps_flag in *; ctx_simpl; intros;
  repeat match goal with
  | H : _ = false -> _ |- _ => specialize (H ltac:(congruence))
  end;
  congruence.

Lemma keeps_flag_for_each {A B} (f : A -> M B) (l : list A) :
  Forall (fun x => preserves keeps_flag (f x)) l ->
  preserves keeps_flag (for_each f l).
Proof.
  induction 1 as [|x l Hx _ IH]; apply preserves_wp; intros c;
    cbn [for_each]; wp_walk; flag_done.
Qed.

Lemma ExprNode_keeps_flag (e : ExprNode) :
  preserves keeps_flag (ExprNode_generate_code e).
Proof.
  induction e as [name ty index IH|value ty|op l r ty IHl IHr|op e ty IHe
                 |name lty index rhs ty IH IHr|name ty args IH]
    using ExprNode_args_ind; apply preserves_wp; intros c.
  - cbn [ExprNode_generate_code]. do 4 wp_step.
    destruct index as [i|]; cbn in IH; cbv beta iota; repeat case_match;
      wp_walk; flag_done.
  - cbn [ExprNode_generate_code]. wp_walk. flag_done.
  - cbn [ExprNode_generate_code]. wp_walk. flag_done.
  - cbn [ExprNode_generate_code]. wp_walk. flag_done.
  - cbn [ExprNode_generate_code].
    destruct index as [i|]; cbn in IH; wp_walk; flag_done.
  - rewrite FuncCallNode_generate_code_eq.
    assert (preserves keeps_flag (for_each FuncCallNode_argument args))
      as Hargs.
    { apply keeps_flag_for_each.
      eapply Forall_impl; [exact IH|]. cbn beta. intros a [Ha Hi].
      apply preserves_wp. intros c0. unfold FuncCallNode_argument.
      destruct a as [n t [i|]| | | | |]; cbn in Hi; wp_walk; flag_done. }
    unfold FuncCallNode_call.
    destruct (String.eqb ty "void"); wp_walk; flag_done.
Qed.

(** X3.  Translating an expression never changes the forced-fresh flag,
    and none of the lines it writes defines a label. *)
Theorem expression_keeps_flag_and_labels (e : ExprNode) (c : Ctx) :
  force_fresh_load (snd (ExprNode_generate_code e c)) = force_fresh_load c /\
  exists ls,
    outcode (snd (ExprNode_generate_code e c)) = (outcode c ++ ls)%list /\
    forall k, label_line k ∉ ls.
Proof.
  split; [apply ExprNode_keeps_flag|].
  destruct (ExprNode_effect e c) as (_ & _ & ls & Ho & Hp).
  exists ls. split; [exact Ho|]. intros k Hin.
  rewrite Forall_forall in Hp. by apply (Hp _ Hin k).
Qed.

Lemma flag_stays_clear_refl c : flag_stays_clear c c.
Proof. by intros H. Qed.

Lemma flag_stays_clear_trans a b c :
  flag_stays_clear a b -> flag_stays_clear b c -> flag_stays_clear a c.
Proof. unfold flag_stays_clear. tauto. Qed.

Lemma flag_when_present_expr (o : option ExprNode) :
  preserves keeps_flag (when_present ExprNode_generate_code o).
Proof.
  destruct o as [e|]; cbn [when_present]; apply preserves_wp; intros c;
    [pose proof (ExprNode_keeps_flag e)|]; wp_walk; flag_done.
Qed.

Lemma StmtNode_flag_stays_clear (s : StmtNode) :
  preserves flag_stays_clear (StmtNode_generate_code s).
Proof.
  induction s as [e|l IH|c t e IHt IHe|c b IHb|i c u b IHi IHc IHb|e|ty vars]
    using StmtNode_nested_ind; apply preserves_wp; intros st.
  - cbn [StmtNode_generate_code].
    pose proof (flag_when_present_expr e). wp_walk. flag_done.
  - cbn [StmtNode_generate_code].
    pose proof (preserves_for_each _ flag_stays_clear_refl
                  flag_stays_clear_trans _ l IH).
    wp_walk. flag_done.
  - cbn [StmtNode_generate_code].
    pose proof (ExprNode_keeps_flag c).
    pose proof (preserves_when_present _ flag_stays_clear_refl
                  flag_stays_clear_trans _ t IHt).
    pose proof (preserves_when_present _ flag_stays_clear_refl
                  flag_stays_clear_trans _ e IHe).
    wp_walk. flag_done.
  - cbn [StmtNode_generate_code].
    pose proof (ExprNode_keeps_flag c).
    pose proof (preserves_when_present _ flag_stays_clear_refl
                  flag_stays_clear_trans _ b IHb).
    wp_walk. flag_done.
  - rewrite ForNode_generate_code_eq.
    assert (preserves flag_stays_clear (ForNode_init i)) as Hinit.
    { apply preserves_wp. intros c0. unfold ForNode_init.
      destruct i as [[x|x| | |]|]; cbn in IHi;
        try pose proof (ExprNode_keeps_flag x); wp_walk; flag_done. }
    assert (preserves flag_stays_clear (ForNode_header c)) as Hheader.
    { apply preserves_wp. intros c0. unfold ForNode_header, ForNode_condition.
      destruct c as [[x|x| | |]|]; cbn in IHc;
        try pose proof (ExprNode_keeps_flag x);
        [|destruct x as [[x|]| | | | | |]|..];
        try pose proof (ExprNode_keeps_flag x);
        wp_walk; flag_done. }
    pose proof (preserves_when_present _ flag_stays_clear_refl
                  flag_stays_clear_trans _ b IHb).
    pose proof (flag_when_present_expr u).
    unfold loop_rest. wp_walk. flag_done.
  - cbn [StmtNode_generate_code].
    destruct e as [e|]; [pose proof (ExprNode_keeps_flag e)|];
      wp_walk; flag_done.
  - cbn [StmtNode_generate_code].
    assert (preserves keeps_flag
              (for_each (fun v => emit (decl_line ty v)) vars)) as Hd.
    { apply keeps_flag_for_each. apply Forall_forall.
      intros v _. apply preserves_wp. intros c0. wp_walk. flag_done. }
    wp_walk. flag_done.
Qed.

Lemma ASTNode_flag_stays_clear (n : ASTNode) :
  preserves flag_stays_clear (ASTNode_generate_code n).
Proof.
  induction n as [e|s|rt name params body|args|units IH]
    using ASTNode_nested_ind.
  - cbn [ASTNode_generate_code]. intros c H.
    by rewrite ExprNode_keeps_flag.
  - cbn [ASTNode_generate_code]. apply StmtNode_flag_stays_clear.
  - rewrite FuncDeclNode_generate_code_eq.
    unfold FuncDeclNode_enter, FuncDeclNode_body.
    apply preserves_wp. intros c.
    destruct body as [l|]; cbn [when_present].
    + assert (preserves flag_stays_clear
                (for_each StmtNode_generate_code l)) as Hl.
      { apply (preserves_for_each _ flag_stays_clear_refl
                 flag_stays_clear_trans).
        apply Forall_forall. intros x _. apply StmtNode_flag_stays_clear. }
      wp_walk. flag_done.
    + wp_walk. flag_done.
  - apply preserves_wp. intros c. cbn [ASTNode_generate_code].
    wp_walk. flag_done.
  - apply preserves_wp. intros c.
    change (ASTNode_generate_code (ProgramNode units))
      with (for_each ASTNode_generate_code units ;; ret "").
    pose proof (preserves_for_each _ flag_stays_clear_refl
                  flag_stays_clear_trans _ units IH).
    wp_walk. flag_done.
Qed.

(** X4.  The forced-fresh flag never leaks out of a [for] header: a node
    entered with the flag clear is left with the flag clear. *)
Theorem flag_clear_after_node (n : ASTNode) (c : Ctx) :
  force_fresh_load c = false ->
  force_fresh_load (snd (ASTNode_generate_code n c)) = false.
Proof. apply ASTNode_flag_stays_clear. Qed.

Lemma flag_clear_after_node_witness :
  force_fresh_load
    (snd (ASTNode_generate_code
            (Stmt (ForNode None (Some (Expr x_read)) None None)) fresh_ctx))
  = false.
Proof. apply flag_clear_after_node. reflexivity. Defined.

(** ** Forced-fresh translation does not read the cache *)

Lemma agree_ret {A} (a : A) : agree (ret a).
Proof. intros c1 c2 H. by split. Qed.

Lemma agree_bind {A B} (m : M A) (k : A -> M B) :
  agree m -> (forall a, agree (k a)) -> agree (bind m k).
Proof.
  intros Hm Hk c1 c2 H. unfold bind. destruct (Hm c1 c2 H) as [Hv Hs].
  destruct (m c1) as [a1 d1], (m c2) as [a2 d2]. cbn [fst snd] in *.
  subst a2. by apply Hk.
Qed.

Lemma agree_step {A} (m : M A) :
  (forall c1 c2, same_but_cache c1 c2 ->
     fst (m c1) = fst (m c2) /\
     outcode (snd (m c1)) = outcode (snd (m c2)) /\
     temp_count (snd (m c1)) = temp_count (snd (m c2)) /\
     label_count (snd (m c1)) = label_count (snd (m c2)) /\
     last_access (snd (m c1)) = last_access (snd (m c2)) /\
     force_fresh_load (snd (m c1)) = force_fresh_load c1 /\
     force_fresh_load (snd (m c2)) = force_fresh_load c2) ->
  agree m.
Proof.
  intros Hm c1 c2 H. destruct (Hm c1 c2 H) as (? & ? & ? & ? & ? & ? & ?).
  destruct H as (? & ? & ? & ? & ? & ?).
  split; [done|]. repeat split; congruence.
Qed.

Ltac agree_prim :=
  apply agree_step;
  let H := fresh in
  intros ? ? H; destruct H as (? & ? & ? & ? & ? & ?);
  ctx_simpl; repeat split; congruence.

Ltac agree_steps :=
  repeat first
    [ progress intros
    | assumption
    | apply agree_ret
    | apply agree_bind
    | agree_prim ].

Lemma agree_for_each {A B} (f : A -> M B) (l : list A) :
  Forall (fun x => agree (f x)) l -> agree (for_each f l).
Proof. induction 1; cbn [for_each]; agree_steps. Qed.

Ltac same_done :=
  unfold same_but_cache in *;
  repeat match goal with H : _ /\ _ |- _ => destruct H end;
  repeat split; ctx_simpl; congruence.

Lemma ExprNode_agree (e : ExprNode) : agree (ExprNode_generate_code e).
Proof.
  induction e as [name ty index IH|value ty|op l r ty IHl IHr|op e ty IHe
                 |name lty index rhs ty IH IHr|name ty args IH]
    using ExprNode_args_ind.
  - intros c1 c2 H. destruct index as [i|]; cbn in IH.
    + rewrite !VarNode_indexed. cbv zeta.
      assert (same_but_cache (set_temp_count Z.succ c1)
                (set_temp_count Z.succ c2)) as H' by same_done.
      destruct (IH _ _ H') as [Hv Hs].
      assert (temp_count c1 = temp_count c2) as Ht by apply H.
      cbn [fst snd]. rewrite Hv, Ht.
      split; [done|]. same_done.
    + assert (temp_count c1 = temp_count c2) as Ht by apply H.
      rewrite (VarNode_miss name ty c1), (VarNode_miss name ty c2)
        by (left; apply H).
      cbv zeta. cbn [fst snd]. rewrite Ht.
      split; [done|]. same_done.
  - cbn [ExprNode_generate_code]. agree_steps.
  - cbn [ExprNode_generate_code]. agree_steps.
  - cbn [ExprNode_generate_code]. agree_steps.
  - cbn [ExprNode_generate_code].
    destruct index as [i|]; cbn in IH; agree_steps.
  - rewrite FuncCallNode_generate_code_eq. apply agree_bind.
    + apply agree_for_each. eapply Forall_impl; [exact IH|]. cbn beta.
      intros a [Ha Hi]. unfold FuncCallNode_argument.
      destruct a as [n t [i|]| | | | |]; cbn in Hi; agree_steps.
    + intros _. unfold FuncCallNode_call.
      destruct (String.eqb ty "void"); agree_steps.
Qed.

(** X5.  In forced-fresh mode the cache is never read: with the flag set,
    an expression translated from two contexts that differ in the cache
    only gives the same value, the same lines, the same counters and the
    same refresh record. *)
Theorem forced_fresh_ignores_cache (e : ExprNode) (c : Ctx)
    (cache : gmap string string) :
  force_fresh_load c = true ->
  let r1 := ExprNode_generate_code e c in
  let r2 := ExprNode_generate_code e (set_symbol_to_temp (fun _ => cache) c) in
  fst r2 = fst r1 /\
  outcode (snd r2) = outcode (snd r1) /\
  temp_count (snd r2) = temp_count (snd r1) /\
  last_access (snd r2) = last_access (snd r1).
Proof.
  intros Hf. cbv zeta.
  assert (same_but_cache c (set_symbol_to_temp (fun _ => cache) c)) as H.
  { unfold same_but_cache. ctx_simpl. by repeat split. }
  destruct (ExprNode_agree e _ _ H) as [Hv (? & ? & ? & ? & ? & ?)].
  by repeat split.
Qed.

Lemma forced_fresh_ignores_cache_witness :
  let c := set_force_fresh_load true ctx_x_cached in
  fst (ExprNode_generate_code x_read (set_symbol_to_temp (fun _ => ∅) c))
  = fst (ExprNode_generate_code x_read c).
Proof.
  cbv zeta.
  destruct (forced_fresh_ignores_cache x_read
              (set_force_fresh_load true ctx_x_cached) ∅) as [H _].
  - reflexivity.
  - exact H.
Defined.

(** ** The skeletons of [if], [while] and [for] *)

Lemma IfNode_generate_code_eq condition then_block else_block :
  StmtNode_generate_code (IfNode condition then_block else_block) =
  (cond_temp <- ExprNode_generate_code condition ;;
   if_rest cond_temp then_block else_block).
Proof. reflexivity. Qed.

Lemma WhileNode_generate_code_eq condition body :
  StmtNode_generate_code (WhileNode condition body) =
  (start_label <- next_label ;;
   body_label <- next_label ;;
   end_label <- next_label ;;
   emit (start_label +:+ ":") ;;
   cond_temp <- ExprNode_generate_code condition ;;
   loop_rest cond_temp start_label body_label end_label body None).
Proof. reflexivity. Qed.

Lemma wp_snd {A} (m : M A) (G : Ctx -> Prop) (c : Ctx) :
  wp m (fun _ c' => G c') c -> G (snd (m c)).
Proof. intros H. exact H. Qed.

Lemma branch_effect_stmt (o : option StmtNode) :
  preserves (branch_effect o) (when_present StmtNode_generate_code o).
Proof.
  intros c. split.
  - apply (preserves_when_present gen_effect gen_effect_refl gen_effect_trans).
    destruct o; [apply StmtNode_effect|exact I].
  - by intros ->.
Qed.

Lemma branch_effect_expr (o : option ExprNode) :
  preserves (fun c c' => expr_effect c c' /\ (o = None -> c' = c))
    (when_present ExprNode_generate_code o).
Proof.
  intros c. split.
  - apply (preserves_when_present expr_effect expr_effect_refl
             expr_effect_trans).
    destruct o; [apply ExprNode_effect|exact I].
  - by intros ->.
Qed.

Lemma app_self_nil {A} (l ls : list A) : l = (l ++ ls)%list -> ls = [].
Proof.
  intros H. apply (app_inv_head l). by rewrite app_nil_r.
Qed.

(** [Z.succ (Z.succ k)] as [k + 2]. *)
Ltac succ_norm :=
  rewrite <- ?Z.add_1_r in *; rewrite <- ?Z.add_assoc in *;
  change (1 + 1) with 2 in *; change (1 + 2) with 3 in *.

Lemma if_rest_lines ct t e st :
  wp (if_rest ct t e)
    (fun _ c' =>
       let k := label_count st in
       exists ls_then ls_else,
         outcode c' =
           (outcode st ++
            ["if " +:+ ct +:+ " goto " +:+ "L" +:+ to_string k;
             "goto " +:+ "L" +:+ to_string (k + 1);
             label_line k] ++
            ls_then ++
            ["goto " +:+ "L" +:+ to_string (k + 2); label_line (k + 1)] ++
            ls_else ++ [label_line (k + 2)])%list /\
         (t = None -> ls_then = []) /\
         (e = None -> ls_else = []) /\
         (forall j, j < k + 3 ->
            label_defs j ls_then = 0%nat /\ label_defs j ls_else = 0%nat) /\
         k + 3 <= label_count c')
    st.
Proof.
  unfold if_rest.
  pose proof (branch_effect_stmt t). pose proof (branch_effect_stmt e).
  wp_walk. cbv zeta.
  repeat match goal with
  | H : branch_effect _ _ _ |- _ =>
      let Hg := fresh "Hg" in let Hn := fresh "Hn" in
      let Ht := fresh "Ht" in let Hl := fresh "Hl" in
      let ls := fresh "ls" in let Ho := fresh "Ho" in
      let Hd := fresh "Hd" in
      destruct H as [Hg Hn]; destruct Hg as (Ht & Hl & ls & Ho & Hd)
  end.
  ctx_simpl. succ_norm. exists ls0, ls. split; [|split; [|split; [|split]]].
  - rewrite Ho, Ho0. rewrite <- !app_assoc. reflexivity.
  - intros ->. specialize (Hn0 eq_refl). subst c'.
    cbn in Ho0. by apply app_self_nil in Ho0.
  - intros ->. specialize (Hn eq_refl). subst c'0.
    cbn in Ho. by apply app_self_nil in Ho.
  - intros j Hj. rewrite Hd, Hd0. split; rewrite decide_False; lia.
  - lia.
Qed.

Lemma loop_rest_lines ct (k : Z) body update st :
  k + 3 <= label_count st ->
  wp (loop_rest ct ("L" +:+ to_string k) ("L" +:+ to_string (k + 1))
        ("L" +:+ to_string (k + 2)) body update)
    (fun _ c' =>
       exists ls_body ls_update,
         outcode c' =
           (outcode st ++
            ["if " +:+ ct +:+ " goto " +:+ "L" +:+ to_string (k + 1);
             "goto " +:+ "L" +:+ to_string (k + 2);
             label_line (k + 1)] ++
            ls_body ++ ls_update ++
            ["goto " +:+ "L" +:+ to_string k; label_line (k + 2)])%list /\
         (body = None -> ls_body = []) /\
         (update = None -> ls_update = []) /\
         (forall j, j < k + 3 -> label_defs j ls_body = 0%nat) /\
         Forall plain ls_update)
    st.
Proof.
  intros Hk. unfold loop_rest.
  pose proof (branch_effect_stmt body). pose proof (branch_effect_expr update).
  wp_walk.
  match goal with H : branch_effect _ _ _ |- _ =>
    destruct H as [(_ & Hl & ls_b & Hob & Hd) Hnb] end.
  match goal with H : expr_effect _ _ /\ _ |- _ =>
    destruct H as [(_ & _ & ls_u & Hou & Hp) Hnu] end.
  ctx_simpl. exists ls_b, ls_u. split; [|split; [|split; [|split]]].
  - rewrite Hou, Hob. rewrite <- !app_assoc. reflexivity.
  - intros ->. specialize (Hnb eq_refl). subst c'.
    cbn in Hob. by apply app_self_nil in Hob.
  - intros ->. specialize (Hnu eq_refl). subst c'0.
    by apply app_self_nil in Hou.
  - intros j Hj. rewrite Hd. rewrite decide_False; [done|lia].
  - exact Hp.
Qed.

Lemma ForNode_header_effect condition c :
  gen_effect c (snd (ForNode_header condition c)) /\
  (condition = None -> ForNode_header condition c = ("1", c)).
Proof.
  split; [|by intros ->].
  revert c. change (preserves gen_effect (ForNode_header condition)).
  unfold ForNode_header, ForNode_condition.
  destruct condition as [[e|s| | |]|]; [|destruct s as [[e|]| | | | | |]|..];
    repeat first
      [ progress intros
      | apply StmtNode_effect
      | apply (preserves_bind gen_effect gen_effect_trans)
      | gen_leaf ].
Qed.

(** ** Blocks and programs compose *)

Lemma ProgramNode_generate_code_eq units :
  ASTNode_generate_code (ProgramNode units) =
  (for_each ASTNode_generate_code units ;; ret "").
Proof. reflexivity. Qed.

(** X9.  A block opens no scope of its own: a block nested in a block is
    translated exactly like its statements written in place, and an empty
    block does nothing. *)
Theorem nested_block_is_inline (l1 l2 l3 : list StmtNode) (c : Ctx) :
  StmtNode_generate_code (BlockNode (l1 ++ BlockNode l2 :: l3)) c =
  StmtNode_generate_code (BlockNode (l1 ++ l2 ++ l3)) c /\
  StmtNode_generate_code (BlockNode []) c = ("", c).
Proof.
  split; [|reflexivity].
  cbn [StmtNode_generate_code]. unfold bind, ret.
  rewrite !for_each_app. cbn [for_each StmtNode_generate_code].
  unfold bind, ret.
  destruct (for_each StmtNode_generate_code l2 _) as [u c2]. reflexivity.
Qed.

(** X10.  Translating a program is translating its units one after the
    other on the same context: a program cut in two is translated like its
    first part followed by its second part. *)
Theorem program_units_in_sequence (u1 u2 : list ASTNode) (c : Ctx) :
  ASTNode_generate_code (ProgramNode (u1 ++ u2)) c =
  ASTNode_generate_code (ProgramNode u2)
    (snd (ASTNode_generate_code (ProgramNode u1) c)).
Proof.
  rewrite !ProgramNode_generate_code_eq. unfold bind, ret.
  rewrite for_each_app.
  destruct (for_each ASTNode_generate_code u1 c) as [u c1]. reflexivity.
Qed.

(** ** Assignments and the cache *)

(** X11.  After a scalar assignment [x = rhs], made with the flag clear,
    a read of [x] gives the temporary that holds the right-hand side and
    writes no load; the assignment itself writes [x = t] after the lines
    of the right-hand side and has [t] as its value. *)
Theorem scalar_assignment_feeds_next_read (x lty ty xty : string)
    (rhs : ExprNode) (c : Ctx) :
  force_fresh_load c = false ->
  let rr := ExprNode_generate_code rhs c in
  let r := ExprNode_generate_code (AssignNode x lty None rhs ty) c in
  let r2 := ExprNode_generate_code (VarNode x xty None) (snd r) in
  fst r = fst rr /\
  outcode (snd r) = (outcode (snd rr) ++ [x +:+ " = " +:+ fst rr])%list /\
  fst r2 = fst rr /\
  outcode (snd r2) = outcode (snd r).
Proof.
  intros Hf. cbv zeta.
  pose proof (ExprNode_keeps_flag rhs c) as Hk. unfold keeps_flag in Hk.
  assert (ExprNode_generate_code (AssignNode x lty None rhs ty) c =
          (fst (ExprNode_generate_code rhs c),
           set_symbol_to_temp (insert x (fst (ExprNode_generate_code rhs c)))
             (set_outcode
                (fun o => (o ++ [x +:+ " = "
                                 +:+ fst (ExprNode_generate_code rhs c)])%list)
                (snd (ExprNode_generate_code rhs c))))) as E.
  { cbn [ExprNode_generate_code]. run_monad.
    destruct (ExprNode_generate_code rhs c). reflexivity. }
  rewrite E. cbn [fst snd].
  rewrite (VarNode_hit x xty (fst (ExprNode_generate_code rhs c))).
  - cbn. by repeat split.
  - cbn. congruence.
  - cbn. apply lookup_insert_eq.
Qed.

Lemma scalar_assignment_feeds_next_read_witness :
  let r := ExprNode_generate_code
             (AssignNode "y" "int" None (ConstNode "1" "int") "int")
             fresh_ctx in
  fst (ExprNode_generate_code (VarNode "y" "int" None) (snd r)) = "t0".
Proof.
  cbv zeta.
  destruct (scalar_assignment_feeds_next_read "y" "int" "int" "int"
              (ConstNode "1" "int") fresh_ctx) as (_ & _ & H & _).
  - reflexivity.
  - exact H.
Defined.

(** X12.  A [while] whose condition is a scalar variable already in the
    cache does not load it again: with the flag clear, the start label is
    followed at once by the jump on the cached temporary, so the condition
    tested on every iteration is the temporary loaded before the loop. *)
Theorem while_condition_reuses_cached_temp (x xty cached : string)
    (body : option StmtNode) (c : Ctx) :
  force_fresh_load c = false ->
  symbol_to_temp c !! x = Some cached ->
  let k := label_count c in
  exists ls_body,
    outcode (snd (StmtNode_generate_code
                    (WhileNode (VarNode x xty None) body) c)) =
    (outcode c ++
     [label_line k;
      "if " +:+ cached +:+ " goto " +:+ "L" +:+ to_string (k + 1);
      "goto " +:+ "L" +:+ to_string (k + 2);
      label_line (k + 1)] ++
     ls_body ++
     ["goto " +:+ "L" +:+ to_string k; label_line (k + 2)])%list.
Proof.
  intros Hf Hx. cbv zeta. rewrite WhileNode_generate_code_eq. run_monad.
  rewrite (VarNode_hit x xty cached) by (cbn; assumption).
  cbn [fst snd]. ctx_simpl. succ_norm.
  match goal with
  | |- context [loop_rest _ _ _ _ _ _ ?S] =>
      assert (label_count c + 3 <= label_count S) as Hk by (cbn; lia);
      destruct (loop_rest_lines cached (label_count c) body None S Hk)
        as (ls_b & ls_u & Hout & _ & Hu & _)
  end.
  rewrite (Hu eq_refl) in Hout. cbn [app] in Hout.
  exists ls_b. rewrite Hout. cbn [outcode].
  rewrite <- !app_assoc. reflexivity.
Qed.

Lemma while_condition_reuses_cached_temp_witness :
  exists ls_body,
    outcode (snd (StmtNode_generate_code (WhileNode x_read None)
                    ctx_x_cached)) =
    (["t0 = x"] ++
     ["L0:"; "if t0 goto L1"; "goto L2"; "L1:"] ++
     ls_body ++ ["goto L0"; "L2:"])%list.
Proof.
  assert (force_fresh_load ctx_x_cached = false) as Hf by reflexivity.
  assert (symbol_to_temp ctx_x_cached !! "x" = Some "t0") as Hx
    by (vm_compute; reflexivity).
  exact (while_condition_reuses_cached_temp "x" "int" "t0" None
           ctx_x_cached Hf Hx).
Defined.

(** ** Declarations *)

Lemma set_outcode_nil c : set_outcode (fun o => (o ++ [])%list) c = c.
Proof. destruct c. unfold set_outcode. cbn. by rewrite app_nil_r. Qed.

Lemma for_each_emit {A} (g : A -> string) (l : list A) (c : Ctx) :
  for_each (fun v => emit (g v)) l c =
  (tt, set_outcode (fun o => (o ++ map g l)%list) c).
Proof.
  revert c. induction l as [|x l IH]; intros c.
  - cbn [for_each map]. unfold ret. by rewrite set_outcode_nil.
  - cbn [for_each map]. unfold bind, emit, modify. rewrite IH.
    unfold set_outcode. cbn. by rewrite <- app_assoc.
Qed.

Lemma append_empty_r (s : string) : s +:+ "" = s.
Proof. induction s as [|a s IH]; [reflexivity|]. cbn. by rewrite IH. Qed.

(** X13.  A declaration has no effect but its annotations: it writes one
    line per declared variable, in order, and leaves the counters, the
    cache, the flag and the refresh record alone; the array length is
    shown only when it is positive. *)
Theorem declaration_only_annotates (ty : string) (vars : list (string * Z))
    (c : Ctx) :
  StmtNode_generate_code (DeclNode ty vars) c =
    ("", set_outcode (fun o => (o ++ map (decl_line ty) vars)%list) c) /\
  (forall name size,
     decl_line ty (name, size) =
     if decide (0 < size)
     then "// Declaration: " +:+ ty +:+ " " +:+ name +:+ "["
          +:+ to_string size +:+ "]"
     else "// Declaration: " +:+ ty +:+ " " +:+ name).
Proof.
  split.
  - cbn [StmtNode_generate_code]. unfold bind, ret.
    by rewrite for_each_emit.
  - intros name size. unfold decl_line. cbn [fst snd].
    case_decide; [reflexivity|]. by rewrite append_empty_r.
Qed.

(** ** Building the trees *)

(** X14.  [get_argument] gives the argument at [index] exactly when
    [0 <= index < size], and null for every other index, negative ones
    included. *)
Theorem get_argument_bounds (index : Z) (args : list ExprNode) :
  (ArgumentsNode_get_argument index args = None <->
   index < 0 \/ ArgumentsNode_size args <= index) /\
  (forall a,
     ArgumentsNode_get_argument index args = Some a <->
     0 <= index /\ args !! Z.to_nat index = Some a).
Proof.
  unfold ArgumentsNode_get_argument, ArgumentsNode_size. split.
  - case_decide as Hr.
    + split; [|lia]. intros Hn. apply lookup_ge_None in Hn. lia.
    + split; [lia|done].
  - intros a. case_decide as Hr.
    + split; [by intros ->; split; [lia|]|by intros [_ H]].
    + split; [done|]. intros [H0 Ha]. apply lookup_lt_Some in Ha. lia.
Qed.

(** X15.  [add_argument] (and [add_statement], [add_unit]) drops a null
    pointer and appends any other one: after adding [a] it is found at the
    old size, the size has grown by one and every earlier index gives
    what it gave before. *)
Theorem add_argument_then_get (a : ExprNode) (args : list ExprNode) :
  add_child None args = args /\
  ArgumentsNode_size (add_child (Some a) args) = ArgumentsNode_size args + 1 /\
  ArgumentsNode_get_argument (ArgumentsNode_size args)
    (add_child (Some a) args) = Some a /\
  (forall i,
     i < ArgumentsNode_size args ->
     ArgumentsNode_get_argument i (add_child (Some a) args)
     = ArgumentsNode_get_argument i args).
Proof.
  unfold ArgumentsNode_get_argument, ArgumentsNode_size, add_child.
  split; [reflexivity|]. rewrite length_app. cbn [length].
  split; [lia|]. split.
  - rewrite decide_True by lia. rewrite Nat2Z.id.
    rewrite lookup_app_r by lia. by rewrite Nat.sub_diag.
  - intros i Hi. destruct (decide (0 <= i)) as [H0|H0].
    + rewrite !decide_True by lia. apply lookup_app_l. lia.
    + by rewrite !decide_False by lia.
Qed.

(** X16.  Children handed to a node one by one are kept in the order of
    the calls, the null ones left out. *)
Theorem add_child_keeps_order {A} (ps : list (option A)) (v : list A) :
  foldl (fun acc p => add_child p acc) v ps = (v ++ omap id ps)%list.
Proof.
  revert v. induction ps as [|p ps IH]; intros v; cbn [foldl].
  - by rewrite app_nil_r.
  - rewrite IH. destruct p as [x|]; cbn; [by rewrite <- app_assoc|done].
Qed.

(** ** The cache at a join of control flow *)

(** X17.  The cache is not reset where control flow joins: after
    [if (cond) { x = rhs; }] with no else, translated with the flag
    clear, a read of [x] writes no load and gives the temporary assigned
    inside the branch, whether or not the branch is taken when the code
    runs. *)
Theorem read_after_if_uses_branch_temp (cond rhs : ExprNode)
    (x lty ty xty : string) (c : Ctx) :
  force_fresh_load c = false ->
  let s := IfNode cond
             (Some (ExprStmtNode (Some (AssignNode x lty None rhs ty))))
             None in
  let r := StmtNode_generate_code s c in
  let r2 := ExprNode_generate_code (VarNode x xty None) (snd r) in
  let k := label_count c in
  outcode (snd r2) = outcode (snd r) /\
  exists pre,
    outcode (snd r) =
    (pre ++
     [x +:+ " = " +:+ fst r2;
      "goto " +:+ "L" +:+ to_string (k + 2);
      label_line (k + 1);
      label_line (k + 2)])%list.
Proof.
  intros Hf. cbv zeta.
  destruct (StmtNode_generate_code _ c) as [u c3] eqn:E.
  rewrite IfNode_generate_code_eq in E. unfold if_rest in E.
  cbn [when_present StmtNode_generate_code ExprNode_generate_code] in E.
  revert E. run_monad.
  pose proof (ExprNode_keeps_flag cond c) as Hk1.
  destruct (ExprNode_effect cond c) as (Hl & _).
  destruct (ExprNode_generate_code cond c) as [ct c1]. cbn [fst snd] in *.
  match goal with
  | |- context [ExprNode_generate_code rhs ?S] =>
      pose proof (ExprNode_keeps_flag rhs S) as Hk2;
      destruct (ExprNode_generate_code rhs S) as [rv c2]
  end.
  unfold keeps_flag in *. ctx_simpl. succ_norm. intros [= <- <-].
  rewrite (VarNode_hit x xty rv).
  - cbn [fst snd]. ctx_simpl. split; [reflexivity|].
    exists (outcode c2). rewrite Hl. rewrite <- !app_assoc. reflexivity.
  - cbn. congruence.
  - cbn. apply lookup_insert_eq.
Qed.

Lemma read_after_if_uses_branch_temp_witness :
  let s := IfNode x_read
             (Some (ExprStmtNode
                      (Some (AssignNode "y" "int" None (ConstNode "1" "int")
                               "int"))))
             None in
  let r := StmtNode_generate_code s fresh_ctx in
  outcode (snd (ExprNode_generate_code (VarNode "y" "int" None) (snd r)))
  = outcode (snd r).
Proof.
  cbv zeta.
  destruct (read_after_if_uses_branch_temp x_read (ConstNode "1" "int")
              "y" "int" "int" "int" fresh_ctx) as [H _].
  - reflexivity.
  - exact H.
Defined.

(** ** A cached entry between two reads *)

Lemma keeps_entry_refl x c : keeps_entry x c c.
Proof. intros H. by split. Qed.

Lemma keeps_entry_trans x a b c :
  keeps_entry x a b -> keeps_entry x b c -> keeps_entry x a c.
Proof.
  intros Hab Hbc Hf. destruct (Hab Hf) as [Hfb Hb].
  destruct (Hbc Hfb) as [Hfc Hc]. split; [exact Hfc|]. auto.
Qed.

Lemma keeps_entry_same x c c' :
  force_fresh_load c' = force_fresh_load c ->
  symbol_to_temp c' = symbol_to_temp c ->
  keeps_entry x c c'.
Proof. intros Hf Hs H. rewrite Hf, Hs. by split. Qed.

Lemma keeps_entry_insert x name v c c' :
  name <> x ->
  force_fresh_load c' = force_fresh_load c ->
  symbol_to_temp c' = <[name := v]> (symbol_to_temp c) ->
  keeps_entry x c c'.
Proof.
  intros Hne Hf Hs H. rewrite Hf, Hs. split; [exact H|].
  intros t Ht. by rewrite lookup_insert_ne.
Qed.

Ltac entry_leaf :=
  first
    [ apply (preserves_ret (keeps_entry _) (keeps_entry_refl _))
    | apply (preserves_gets (keeps_entry _) (keeps_entry_refl _))
    | (intros ?c; apply keeps_entry_same; reflexivity)
    | (intros ?c; eapply keeps_entry_insert;
       [eassumption|reflexivity|reflexivity]) ].

Ltac entry_steps :=
  repeat first
    [ progress intros
    | assumption
    | apply (preserves_bind (keeps_entry _) (keeps_entry_trans _))
    | entry_leaf ].

Lemma eqb_false_ne (a b : string) : negb (String.eqb a b) = true -> a <> b.
Proof. intros H. apply String.eqb_neq. by apply negb_true_iff. Qed.

Lemma VarNode_scalar_keeps_entry x name ty :
  preserves (keeps_entry x) (ExprNode_generate_code (VarNode name ty None)).
Proof.
  intros c Hf.
  destruct (symbol_to_temp c !! name) as [cached|] eqn:E.
  - rewrite (VarNode_hit name ty cached c Hf E). cbn. by split.
  - rewrite (VarNode_miss name ty c) by (by right). cbn.
    split; [exact Hf|]. intros t Ht.
    destruct (decide (name = x)) as [->|Hne]; [congruence|].
    by rewrite lookup_insert_ne.
Qed.

Lemma ExprNode_keeps_entry x (e : ExprNode) :
  no_write_to x e = true ->
  preserves (keeps_entry x) (ExprNode_generate_code e).
Proof.
  induction e as [name ty index IH|value ty|op l r ty IHl IHr|op e ty IHe
                 |name lty index rhs ty IH IHr|name ty args IH]
    using ExprNode_args_ind; cbn [no_write_to]; intros Hq.
  - destruct index as [i|]; [|apply VarNode_scalar_keeps_entry].
    apply andb_prop in Hq as [Hne Hi]. apply eqb_false_ne in Hne.
    cbn in IH. specialize (IH Hi). intros c.
    rewrite VarNode_indexed. cbv zeta. intros Hf.
    destruct (IH (set_temp_count Z.succ c) Hf) as [Hf' Hc].
    cbn. split; [exact Hf'|]. intros t Ht.
    rewrite lookup_insert_ne by exact Hne. by apply Hc.
  - cbn [ExprNode_generate_code]. entry_steps.
  - apply andb_prop in Hq as [Hl Hr]. specialize (IHl Hl).
    specialize (IHr Hr). cbn [ExprNode_generate_code]. entry_steps.
  - specialize (IHe Hq). cbn [ExprNode_generate_code]. entry_steps.
  - apply andb_prop in Hq as [Hr Hi]. specialize (IHr Hr).
    cbn [ExprNode_generate_code]. destruct index as [i|]; cbn in IH.
    + specialize (IH Hi). entry_steps.
    + apply eqb_false_ne in Hi. entry_steps.
  - rewrite FuncCallNode_generate_code_eq.
    apply (preserves_bind (keeps_entry x) (keeps_entry_trans x)).
    + apply (preserves_for_each (keeps_entry x) (keeps_entry_refl x)
               (keeps_entry_trans x)).
      rewrite forallb_forall in Hq. apply Forall_forall. intros a Hin.
      rewrite Forall_forall in IH. destruct (IH a Hin) as [Ha Hi].
      assert (no_write_to x a = true) as Hqa.
      { apply Hq. by apply list_elem_of_In. }
      unfold FuncCallNode_argument.
      destruct a as [n t [i|]| | | | |]; cbn in Hi.
      1: { cbn [no_write_to] in Hqa. apply andb_prop in Hqa as [_ Hqi].
           specialize (Hi Hqi). entry_steps. }
      1: { entry_steps. }
      all: specialize (Ha Hqa); entry_steps.
    + intros _. unfold FuncCallNode_call.
      destruct (String.eqb ty "void"); entry_steps.
Qed.

Lemma when_present_expr_keeps_entry x (o : option ExprNode) :
  opt_forall (no_write_to x) o = true ->
  preserves (keeps_entry x) (when_present ExprNode_generate_code o).
Proof.
  destruct o as [e|]; cbn [opt_forall when_present]; intros Hq.
  - pose proof (ExprNode_keeps_entry x e Hq). entry_steps.
  - entry_steps.
Qed.

Lemma when_present_stmt_keeps_entry x (o : option StmtNode) :
  opt_all (fun s => quiet_for x s = true ->
                    preserves (keeps_entry x) (StmtNode_generate_code s)) o ->
  match o with Some a => quiet_for x a | None => true end = true ->
  preserves (keeps_entry x) (when_present StmtNode_generate_code o).
Proof.
  destruct o as [s|]; cbn [opt_all when_present]; intros IH Hq.
  - specialize (IH Hq). entry_steps.
  - entry_steps.
Qed.

Lemma StmtNode_keeps_entry x (s : StmtNode) :
  quiet_for x s = true ->
  preserves (keeps_entry x) (StmtNode_generate_code s).
Proof.
  induction s as [e|l IH|c t e IHt IHe|c b IHb|i c u b IHi IHc IHb|e|ty vars]
    using StmtNode_nested_ind; cbn [quiet_for]; intros Hq.
  - cbn [StmtNode_generate_code].
    pose proof (when_present_expr_keeps_entry x e Hq). entry_steps.
  - cbn [StmtNode_generate_code].
    assert (preserves (keeps_entry x) (for_each StmtNode_generate_code l))
      as Hl.
    { apply (preserves_for_each (keeps_entry x) (keeps_entry_refl x)
               (keeps_entry_trans x)).
      rewrite forallb_forall in Hq. rewrite Forall_forall in IH.
      apply Forall_forall. intros a Hin. apply (IH a Hin).
      apply Hq. by apply list_elem_of_In. }
    entry_steps.
  - apply andb_prop in Hq as [Hq He]. apply andb_prop in Hq as [Hc Ht].
    pose proof (ExprNode_keeps_entry x c Hc).
    pose proof (when_present_stmt_keeps_entry x t IHt Ht).
    pose proof (when_present_stmt_keeps_entry x e IHe He).
    cbn [StmtNode_generate_code]. entry_steps.
  - apply andb_prop in Hq as [Hc Hb].
    pose proof (ExprNode_keeps_entry x c Hc).
    pose proof (when_present_stmt_keeps_entry x b IHb Hb).
    cbn [StmtNode_generate_code]. entry_steps.
  - apply andb_prop in Hq as [Hq Hb]. apply andb_prop in Hq as [Hq Hu].
    apply andb_prop in Hq as [Hc Hi].
    destruct c as [c|]; [discriminate|].
    pose proof (when_present_stmt_keeps_entry x b IHb Hb).
    pose proof (when_present_expr_keeps_entry x u Hu).
    assert (preserves (keeps_entry x) (ForNode_init i)) as Hinit.
    { unfold ForNode_init. destruct i as [[a|a| | |]|]; cbn in IHi.
      - pose proof (ExprNode_keeps_entry x a Hi). entry_steps.
      - specialize (IHi Hi). entry_steps.
      - entry_steps.
      - entry_steps.
      - entry_steps.
      - entry_steps. }
    rewrite ForNode_generate_code_eq. unfold ForNode_header, loop_rest.
    entry_steps.
  - cbn [StmtNode_generate_code]. destruct e as [e|]; cbn in Hq.
    + pose proof (ExprNode_keeps_entry x e Hq). entry_steps.
    + entry_steps.
  - cbn [StmtNode_generate_code].
    assert (preserves (keeps_entry x)
              (for_each (fun v => emit (decl_line ty v)) vars)) as Hd.
    { apply (preserves_for_each (keeps_entry x) (keeps_entry_refl x)
               (keeps_entry_trans x)).
      apply Forall_forall. intros v _. entry_steps. }
    entry_steps.
Qed.

(** After a scalar read with the flag clear, the flag is clear and the
    name is cached in the temporary the read gave back. *)
Lemma VarNode_scalar_caches name ty c :
  force_fresh_load c = false ->
  force_fresh_load (snd (ExprNode_generate_code (VarNode name ty None) c))
    = false /\
  symbol_to_temp (snd (ExprNode_generate_code (VarNode name ty None) c))
    !! name
    = Some (fst (ExprNode_generate_code (VarNode name ty None) c)).
Proof.
  intros Hf. destruct (symbol_to_temp c !! name) as [t|] eqn:E.
  - rewrite (VarNode_hit _ _ _ _ Hf E). cbn. split; assumption.
  - rewrite (VarNode_miss name ty c) by (by right). cbn.
    split; [assumption|apply lookup_insert_eq].
Qed.

(** A scalar read after a step that keeps the entry of the name. *)
Lemma read_after_kept_entry {A} name ty (m : M A) (c : Ctx) :
  preserves (keeps_entry name) m ->
  force_fresh_load c = false ->
  let r1 := ExprNode_generate_code (VarNode name ty None) c in
  let rm := m (snd r1) in
  let r2 := ExprNode_generate_code (VarNode name ty None) (snd rm) in
  fst r2 = fst r1 /\
  outcode (snd r2) = outcode (snd rm) /\
  temp_count (snd r2) = temp_count (snd rm) + 1.
Proof.
  intros Hm Hf. cbv zeta.
  destruct (VarNode_scalar_caches name ty c Hf) as [Hf1 Hc1].
  destruct (Hm (snd (ExprNode_generate_code (VarNode name ty None) c)) Hf1)
    as [Hf2 Hc2].
  specialize (Hc2 _ Hc1).
  rewrite (VarNode_hit name ty _ _ Hf2 Hc2). cbn. repeat split; lia.
Qed.

(** C6.  A scalar read with the forced-fresh flag clear and an entry for the
    name in the cache gives back the cached temporary, writes no line and
    still advances the temporary counter by one.  Hence, of two scalar
    reads of one variable, the second gives the temporary of the first and
    writes nothing: when they stand in a row (the first then wrote at most
    its one load), and when an expression or a statement is translated
    between them that has no write to the variable (no scalar assignment to
    it, no indexed access to its name) and no [for] with a condition (no
    loop refresh); calls may stand between the two reads.  Any such
    expression or statement, entered with the flag clear and the variable
    cached, leaves the flag clear and the entry as it is, so the same
    holds across any sequence of them.  In [(x op1 mid) op2 x] the second
    read of [x] writes no line: after the lines of [x] and [mid] come only
    the two lines of the operations, both on the temporary of the first
    read. *)
Theorem scalar_read_reuses_cached_temp (name ty cached : string) (c : Ctx) :
  force_fresh_load c = false ->
  symbol_to_temp c !! name = Some cached ->
  let r := ExprNode_generate_code (VarNode name ty None) c in
  (fst r = cached /\
   outcode (snd r) = outcode c /\
   temp_count (snd r) = temp_count c + 1 /\
   symbol_to_temp (snd r) = symbol_to_temp c) /\
  (forall c0, force_fresh_load c0 = false ->
     let r1 := ExprNode_generate_code (VarNode name ty None) c0 in
     let r2 := ExprNode_generate_code (VarNode name ty None) (snd r1) in
     fst r2 = fst r1 /\
     outcode (snd r2) = outcode (snd r1) /\
     temp_count (snd r2) = temp_count c0 + 2 /\
     (outcode (snd r1) = outcode c0 \/
      outcode (snd r1) = (outcode c0 ++ [fst r1 +:+ " = " +:+ name])%list)) /\
  (forall (mid : ExprNode) c0,
     force_fresh_load c0 = false ->
     no_write_to name mid = true ->
     let r1 := ExprNode_generate_code (VarNode name ty None) c0 in
     let rm := ExprNode_generate_code mid (snd r1) in
     let r2 := ExprNode_generate_code (VarNode name ty None) (snd rm) in
     fst r2 = fst r1 /\
     outcode (snd r2) = outcode (snd rm) /\
     temp_count (snd r2) = temp_count (snd rm) + 1) /\
  (forall (mid : StmtNode) c0,
     force_fresh_load c0 = false ->
     quiet_for name mid = true ->
     let r1 := ExprNode_generate_code (VarNode name ty None) c0 in
     let rm := StmtNode_generate_code mid (snd r1) in
     let r2 := ExprNode_generate_code (VarNode name ty None) (snd rm) in
     fst r2 = fst r1 /\
     outcode (snd r2) = outcode (snd rm) /\
     temp_count (snd r2) = temp_count (snd rm) + 1) /\
  (forall (e : ExprNode) (s : StmtNode) c0 t,
     force_fresh_load c0 = false ->
     symbol_to_temp c0 !! name = Some t ->
     (no_write_to name e = true ->
      let c' := snd (ExprNode_generate_code e c0) in
      force_fresh_load c' = false /\ symbol_to_temp c' !! name = Some t) /\
     (quiet_for name s = true ->
      let c' := snd (StmtNode_generate_code s c0) in
      force_fresh_load c' = false /\ symbol_to_temp c' !! name = Some t)) /\
  (forall (mid : ExprNode) op1 op2 ty1 ty2 c0,
     force_fresh_load c0 = false ->
     no_write_to name mid = true ->
     let r1 := ExprNode_generate_code (VarNode name ty None) c0 in
     let rm := ExprNode_generate_code mid (snd r1) in
     let n := temp_count (snd rm) in
     outcode (snd (ExprNode_generate_code
                     (BinaryOpNode op2
                        (BinaryOpNode op1 (VarNode name ty None) mid ty1)
                        (VarNode name ty None) ty2) c0)) =
     (outcode (snd rm) ++
      [("t" +:+ to_string n) +:+ " = " +:+ fst r1 +:+ " " +:+ op1 +:+ " "
         +:+ fst rm;
       ("t" +:+ to_string (n + 2)) +:+ " = " +:+ ("t" +:+ to_string n)
         +:+ " " +:+ op2 +:+ " " +:+ fst r1])%list).
Proof.
  intros Hf Hc. split; [|split; [|split; [|split; [|split]]]].
  - cbv zeta. rewrite (VarNode_hit _ _ _ _ Hf Hc). cbn. repeat split.
  - intros c0 Hf0. cbv zeta.
    destruct (symbol_to_temp c0 !! name) as [t|] eqn:E.
    + rewrite (VarNode_hit _ _ _ _ Hf0 E). cbn [fst snd].
      rewrite (VarNode_hit name ty t) by (cbn; assumption).
      cbn. repeat split; (lia || by left).
    + rewrite (VarNode_miss name ty c0) by (by right). cbn [fst snd].
      rewrite (VarNode_hit name ty ("t" +:+ to_string (temp_count c0))).
      * cbn. repeat split; (lia || by right).
      * done.
      * cbn. apply lookup_insert_eq.
  - intros mid c0 Hf0 Hq.
    apply (read_after_kept_entry name ty (ExprNode_generate_code mid) c0
             (ExprNode_keeps_entry name mid Hq) Hf0).
  - intros mid c0 Hf0 Hq.
    apply (read_after_kept_entry name ty (StmtNode_generate_code mid) c0
             (StmtNode_keeps_entry name mid Hq) Hf0).
  - intros e s c0 t Hf0 Hc0. split; intros Hq; cbv zeta.
    + destruct (ExprNode_keeps_entry name e Hq c0 Hf0) as [Hf1 Hc1].
      split; [exact Hf1|exact (Hc1 t Hc0)].
    + destruct (StmtNode_keeps_entry name s Hq c0 Hf0) as [Hf1 Hc1].
      split; [exact Hf1|exact (Hc1 t Hc0)].
  - intros mid op1 op2 ty1 ty2 c0 Hf0 Hq. cbv zeta.
    destruct (VarNode_scalar_caches name ty c0 Hf0) as [Hf1 Hc1].
    pose proof (ExprNode_keeps_entry name mid Hq
                  (snd (ExprNode_generate_code (VarNode name ty None) c0)) Hf1)
      as [Hf2 Hc2].
    specialize (Hc2 _ Hc1).
    change (ExprNode_generate_code
              (BinaryOpNode op2
                 (BinaryOpNode op1 (VarNode name ty None) mid ty1)
                 (VarNode name ty None) ty2))
      with (l <- (a <- ExprNode_generate_code (VarNode name ty None) ;;
                  b <- ExprNode_generate_code mid ;;
                  temp <- next_temp ;;
                  emit (temp +:+ " = " +:+ a +:+ " " +:+ op1 +:+ " " +:+ b) ;;
                  ret temp) ;;
            r <- ExprNode_generate_code (VarNode name ty None) ;;
            temp <- next_temp ;;
            emit (temp +:+ " = " +:+ l +:+ " " +:+ op2 +:+ " " +:+ r) ;;
            ret temp).
    unfold bind at 1 2.
    destruct (ExprNode_generate_code (VarNode name ty None) c0) as [a c1].
    cbn [fst snd] in *. unfold bind at 1.
    destruct (ExprNode_generate_code mid c1) as [b c2].
    cbn [fst snd] in *. run_monad.
    rewrite (VarNode_hit name ty a); [|ctx_simpl; assumption..].
    ctx_simpl. succ_norm. rewrite <- !app_assoc. reflexivity.
Qed.

Lemma scalar_read_reuses_cached_temp_witness :
  fst (ExprNode_generate_code x_read ctx_x_cached) = "t0" /\
  outcode (snd (ExprNode_generate_code x_read ctx_x_cached)) = ["t0 = x"] /\
  temp_count (snd (ExprNode_generate_code x_read ctx_x_cached)) = 2.
Proof.
  assert (force_fresh_load ctx_x_cached = false) as Hf by reflexivity.
  assert (symbol_to_temp ctx_x_cached !! "x" = Some "t0") as Hc
    by (vm_compute; reflexivity).
  destruct (scalar_read_reuses_cached_temp "x" "int" "t0" ctx_x_cached Hf Hc)
    as [(H1 & H2 & H3 & _) _].
  split; [exact H1|]. split; [exact H2|exact H3].
Defined.

(** ** The temporary counter from one unit of a program to the next *)




(** ** The skeletons, step by step *)

Lemma ctx_eq (c c' : Ctx) :
  outcode c = outcode c' -> symbol_to_temp c = symbol_to_temp c' ->
  temp_count c = temp_count c' -> label_count c = label_count c' ->
  force_fresh_load c = force_fresh_load c' ->
  last_access c = last_access c' ->
  c = c'.
Proof. destruct c, c'; cbn; intros; subst; reflexivity. Qed.

Ltac ctx_eq_done :=
  apply ctx_eq; unfold ctx_with; ctx_simpl; succ_norm;
  rewrite <- ?app_assoc; rewrite ?Z.add_0_r; (reflexivity || lia).

Lemma if_rest_steps ct t e st :
  let k := label_count st in
  let c_then :=
    ctx_with st
      ["if " +:+ ct +:+ " goto " +:+ "L" +:+ to_string k;
       "goto " +:+ "L" +:+ to_string (k + 1);
       label_line k] 3 in
  let rt := when_present StmtNode_generate_code t c_then in
  let c_else :=
    ctx_with (snd rt)
      ["goto " +:+ "L" +:+ to_string (k + 2); label_line (k + 1)] 0 in
  let re := when_present StmtNode_generate_code e c_else in
  if_rest ct t e st = ("", ctx_with (snd re) [label_line (k + 2)] 0).
Proof.
  cbv zeta. unfold if_rest. run_monad.
  match goal with
  | |- context [when_present StmtNode_generate_code t ?S] =>
      replace S with
        (ctx_with st
           ["if " +:+ ct +:+ " goto " +:+ "L" +:+ to_string (label_count st);
            "goto " +:+ "L" +:+ to_string (label_count st + 1);
            label_line (label_count st)] 3) by ctx_eq_done
  end.
  destruct (when_present StmtNode_generate_code t _) as [u c2].
  cbn [fst snd].
  match goal with
  | |- context [when_present StmtNode_generate_code e ?S] =>
      replace S with
        (ctx_with c2
           ["goto " +:+ "L" +:+ to_string (label_count st + 2);
            label_line (label_count st + 1)] 0) by ctx_eq_done
  end.
  destruct (when_present StmtNode_generate_code e _) as [u' c3].
  cbn [fst snd]. f_equal. ctx_eq_done.
Qed.

Lemma loop_rest_steps ct (k : Z) body update st :
  let c_body :=
    ctx_with st
      ["if " +:+ ct +:+ " goto " +:+ "L" +:+ to_string (k + 1);
       "goto " +:+ "L" +:+ to_string (k + 2);
       label_line (k + 1)] 0 in
  let rb := when_present StmtNode_generate_code body c_body in
  let ru := when_present ExprNode_generate_code update (snd rb) in
  loop_rest ct ("L" +:+ to_string k) ("L" +:+ to_string (k + 1))
    ("L" +:+ to_string (k + 2)) body update st =
  ("", ctx_with (snd ru)
         ["goto " +:+ "L" +:+ to_string k; label_line (k + 2)] 0).
Proof.
  cbv zeta. unfold loop_rest. run_monad.
  match goal with
  | |- context [when_present StmtNode_generate_code body ?S] =>
      replace S with
        (ctx_with st
           ["if " +:+ ct +:+ " goto " +:+ "L" +:+ to_string (k + 1);
            "goto " +:+ "L" +:+ to_string (k + 2);
            label_line (k + 1)] 0) by ctx_eq_done
  end.
  destruct (when_present StmtNode_generate_code body _) as [u c2].
  cbn [fst snd].
  destruct (when_present ExprNode_generate_code update c2) as [u' c3].
  cbn [fst snd]. f_equal. ctx_eq_done.
Qed.

Lemma loop_labels_steps c :
  loop_labels c =
  (("L" +:+ to_string (label_count c),
    "L" +:+ to_string (label_count c + 1),
    "L" +:+ to_string (label_count c + 2)),
   ctx_with c [label_line (label_count c)] 3).
Proof.
  unfold loop_labels. run_monad. f_equal.
  - ctx_simpl. succ_norm. reflexivity.
  - ctx_eq_done.
Qed.

(** The lines and labels an optional branch adds to a context whose label
    counter is past [k]. *)
Lemma branch_lines (o : option StmtNode) (k : Z) (c : Ctx) :
  k <= label_count c ->
  exists ls,
    outcode (snd (when_present StmtNode_generate_code o c)) =
      (outcode c ++ ls)%list /\
    (o = None -> ls = []) /\
    (forall j, j < k -> label_defs j ls = 0%nat) /\
    label_count c <= label_count (snd (when_present StmtNode_generate_code o c)).
Proof.
  intros Hk.
  destruct (branch_effect_stmt o c) as [(_ & Hl & ls & Ho & Hd) Hn].
  exists ls. split; [exact Ho|]. split; [|split; [|exact Hl]].
  - intros Hnone. rewrite (Hn Hnone) in Ho. by apply app_self_nil in Ho.
  - intros j Hj. rewrite Hd. rewrite decide_False; [done|lia].
Qed.

Lemma update_lines (o : option ExprNode) (c : Ctx) :
  exists ls,
    outcode (snd (when_present ExprNode_generate_code o c)) =
      (outcode c ++ ls)%list /\
    (o = None -> ls = []) /\
    Forall plain ls.
Proof.
  destruct (branch_effect_expr o c) as [(_ & _ & ls & Ho & Hp) Hn].
  exists ls. split; [exact Ho|]. split; [|exact Hp].
  intros Hnone. rewrite (Hn Hnone) in Ho. by apply app_self_nil in Ho.
Qed.

(** X6.  Every [if], with or without an [else], is lowered to the same
    skeleton on three fresh labels [Lk], [Lk+1], [Lk+2], [k] being the
    label counter on entry.  The condition is translated first; the lines
    [if t goto Lk], [goto Lk+1], [Lk:] follow; the then-branch is
    translated in the context so reached and its lines [ls_then] come
    next; then [goto Lk+2], [Lk+1:]; the else-branch is translated in the
    context so reached and its lines [ls_else] come next (none when it is
    absent); [Lk+2:] closes.  Neither branch defines one of the three
    labels again. *)
Theorem if_skeleton (cond : ExprNode) (t e : option StmtNode) (c : Ctx) :
  let k := label_count c in
  let rc := ExprNode_generate_code cond c in
  let head :=
    ["if " +:+ fst rc +:+ " goto " +:+ "L" +:+ to_string k;
     "goto " +:+ "L" +:+ to_string (k + 1);
     label_line k] in
  let c_then := ctx_with (snd rc) head 3 in
  let rt := when_present StmtNode_generate_code t c_then in
  let middle :=
    ["goto " +:+ "L" +:+ to_string (k + 2); label_line (k + 1)] in
  let c_else := ctx_with (snd rt) middle 0 in
  let re := when_present StmtNode_generate_code e c_else in
  let r := StmtNode_generate_code (IfNode cond t e) c in
  r = ("", ctx_with (snd re) [label_line (k + 2)] 0) /\
  label_count c_then = k + 3 /\
  exists ls_then ls_else,
    outcode (snd rt) = (outcode c_then ++ ls_then)%list /\
    outcode (snd re) = (outcode c_else ++ ls_else)%list /\
    outcode (snd r) =
      (outcode (snd rc) ++ head ++ ls_then ++ middle ++ ls_else ++
       [label_line (k + 2)])%list /\
    (t = None -> ls_then = []) /\
    (e = None -> ls_else = []) /\
    (forall j, j < k + 3 ->
       label_defs j ls_then = 0%nat /\ label_defs j ls_else = 0%nat) /\
    k + 3 <= label_count (snd r).
Proof.
  cbv zeta. rewrite IfNode_generate_code_eq. unfold bind.
  destruct (ExprNode_effect cond c) as (Hl & _).
  destruct (ExprNode_generate_code cond c) as [ct c1]. cbn [fst snd] in *.
  rewrite <- Hl.
  pose proof (if_rest_steps ct t e c1) as Hr. cbv zeta in Hr. rewrite Hr.
  clear Hr. cbn [fst snd].
  set (c_then := ctx_with c1 _ 3).
  assert (label_count c_then = label_count c1 + 3) as Hkt by reflexivity.
  destruct (branch_lines t (label_count c1 + 3) c_then)
    as (ls_t & Hot & Hnt & Hdt & Hlt); [lia|].
  set (c_else := ctx_with (snd (when_present _ t c_then)) _ 0) in *.
  assert (label_count c_else =
          label_count (snd (when_present StmtNode_generate_code t c_then)) + 0)
    as Hke by reflexivity.
  destruct (branch_lines e (label_count c1 + 3) c_else)
    as (ls_e & Hoe & Hne & Hde & Hle); [lia|].
  split; [reflexivity|]. split; [exact Hkt|].
  exists ls_t, ls_e.
  split; [exact Hot|]. split; [exact Hoe|].
  split; [|split; [exact Hnt|split; [exact Hne|split]]].
  - unfold ctx_with at 1. cbn [outcode]. rewrite Hoe.
    unfold c_else at 1. unfold ctx_with at 1. cbn [outcode]. rewrite Hot.
    unfold c_then at 1. unfold ctx_with at 1. cbn [outcode].
    rewrite <- !app_assoc. reflexivity.
  - intros j Hj. split; [by apply Hdt|by apply Hde].
  - unfold ctx_with at 1. cbn [label_count]. lia.
Qed.

(** X7.  Every [while] is lowered to the same loop skeleton on three fresh
    labels [Lk], [Lk+1], [Lk+2], [k] being the label counter on entry.
    [Lk:] is written first; the condition is translated in the context so
    reached and its lines [ls_cond] (no label among them) follow; then
    [if t goto Lk+1], [goto Lk+2], [Lk+1:]; the body is translated in the
    context so reached and its lines [ls_body] come next (none when it is
    absent); [goto Lk] and [Lk+2:] close.  The body defines none of the
    three labels again. *)
Theorem while_skeleton (cond : ExprNode) (body : option StmtNode) (c : Ctx) :
  let k := label_count c in
  let c1 := ctx_with c [label_line k] 3 in
  let rc := ExprNode_generate_code cond c1 in
  let head :=
    ["if " +:+ fst rc +:+ " goto " +:+ "L" +:+ to_string (k + 1);
     "goto " +:+ "L" +:+ to_string (k + 2);
     label_line (k + 1)] in
  let c_body := ctx_with (snd rc) head 0 in
  let rb := when_present StmtNode_generate_code body c_body in
  let tail := ["goto " +:+ "L" +:+ to_string k; label_line (k + 2)] in
  let r := StmtNode_generate_code (WhileNode cond body) c in
  r = ("", ctx_with (snd rb) tail 0) /\
  c1 = snd (loop_labels c) /\
  exists ls_cond ls_body,
    outcode (snd rc) = (outcode c ++ [label_line k] ++ ls_cond)%list /\
    Forall plain ls_cond /\
    outcode (snd rb) = (outcode c_body ++ ls_body)%list /\
    outcode (snd r) = (outcode (snd rc) ++ head ++ ls_body ++ tail)%list /\
    (body = None -> ls_body = []) /\
    (forall j, j < k + 3 -> label_defs j ls_body = 0%nat).
Proof.
  cbv zeta.
  assert (StmtNode_generate_code (WhileNode cond body) =
          (labels <- loop_labels ;;
           cond_temp <- ExprNode_generate_code cond ;;
           loop_rest cond_temp (fst (fst labels)) (snd (fst labels))
             (snd labels) body None)) as Heq by reflexivity.
  rewrite Heq. clear Heq. unfold bind.
  rewrite loop_labels_steps. cbn [fst snd].
  set (c1 := ctx_with c _ 3).
  destruct (ExprNode_effect cond c1) as (Hl & _ & ls_c & Ho & Hp).
  destruct (ExprNode_generate_code cond c1) as [ct c2]. cbn [fst snd] in *.
  pose proof (loop_rest_steps ct (label_count c) body None c2) as Hr.
  cbv zeta in Hr. rewrite Hr. clear Hr. cbn [when_present ret fst snd].
  set (c_body := ctx_with c2 _ 0).
  assert (label_count c_body = label_count c + 3 + 0) as Hkb
    by (unfold c_body, ctx_with; cbn [label_count]; rewrite Hl; reflexivity).
  destruct (branch_lines body (label_count c + 3) c_body)
    as (ls_b & Hob & Hnb & Hdb & _); [lia|].
  split; [reflexivity|]. split; [reflexivity|].
  exists ls_c, ls_b.
  split; [|split; [exact Hp|split; [exact Hob|split; [|split]]]].
  - rewrite Ho. unfold c1, ctx_with. cbn [outcode].
    rewrite <- !app_assoc. reflexivity.
  - unfold ctx_with at 1. cbn [outcode]. rewrite Hob.
    unfold c_body at 1. unfold ctx_with at 1. cbn [outcode].
    rewrite <- !app_assoc. reflexivity.
  - exact Hnb.
  - exact Hdb.
Qed.

(** X8.  Every [for] is lowered to the same loop skeleton on three fresh
    labels [Lk], [Lk+1], [Lk+2], [k] being the label counter after the
    init part.  [Lk:] is written first; the loop header is translated in
    the context so reached and its lines [ls_cond] follow; then
    [if t goto Lk+1], [goto Lk+2], [Lk+1:]; the body is translated in the
    context so reached and its lines [ls_body] come next; the update is
    translated in the context the body left and its lines [ls_update] (no
    label among them) come after those of the body; [goto Lk] and [Lk+2:]
    close.  Without a condition the jump is [if 1 goto Lk+1] and nothing
    stands between [Lk:] and it.  Neither the condition nor the body
    defines one of the three labels again. *)
Theorem for_skeleton (init condition : option ASTNode)
    (update : option ExprNode) (body : option StmtNode) (c : Ctx) :
  let c0 := snd (ForNode_init init c) in
  let k := label_count c0 in
  let c1 := ctx_with c0 [label_line k] 3 in
  let rh := ForNode_header condition c1 in
  let head :=
    ["if " +:+ fst rh +:+ " goto " +:+ "L" +:+ to_string (k + 1);
     "goto " +:+ "L" +:+ to_string (k + 2);
     label_line (k + 1)] in
  let c_body := ctx_with (snd rh) head 0 in
  let rb := when_present StmtNode_generate_code body c_body in
  let ru := when_present ExprNode_generate_code update (snd rb) in
  let tail := ["goto " +:+ "L" +:+ to_string k; label_line (k + 2)] in
  let r := StmtNode_generate_code (ForNode init condition update body) c in
  r = ("", ctx_with (snd ru) tail 0) /\
  c1 = snd (loop_labels c0) /\
  exists ls_cond ls_body ls_update,
    outcode (snd rh) = (outcode c0 ++ [label_line k] ++ ls_cond)%list /\
    outcode (snd rb) = (outcode c_body ++ ls_body)%list /\
    outcode (snd ru) = (outcode (snd rb) ++ ls_update)%list /\
    outcode (snd r) =
      (outcode (snd rh) ++ head ++ ls_body ++ ls_update ++ tail)%list /\
    (condition = None -> ls_cond = [] /\ fst rh = "1") /\
    (body = None -> ls_body = []) /\
    (update = None -> ls_update = []) /\
    (forall j, j < k + 3 ->
       label_defs j ls_cond = 0%nat /\ label_defs j ls_body = 0%nat) /\
    Forall plain ls_update.
Proof.
  cbv zeta.
  assert (StmtNode_generate_code (ForNode init condition update body) =
          (ForNode_init init ;;
           labels <- loop_labels ;;
           cond_temp <- ForNode_header condition ;;
           loop_rest cond_temp (fst (fst labels)) (snd (fst labels))
             (snd labels) body update)) as Heq by reflexivity.
  rewrite Heq. clear Heq. unfold bind.
  destruct (ForNode_init init c) as [u c0]. cbn [snd].
  rewrite loop_labels_steps. cbn [fst snd].
  set (c1 := ctx_with c0 _ 3).
  destruct (ForNode_header_effect condition c1)
    as [(_ & Hl & ls_c & Ho & Hdc) Hnone].
  destruct (ForNode_header condition c1) as [ct c2] eqn:Eh.
  cbn [fst snd] in *.
  pose proof (loop_rest_steps ct (label_count c0) body update c2) as Hr.
  cbv zeta in Hr. rewrite Hr. clear Hr. cbn [fst snd].
  set (c_body := ctx_with c2 _ 0).
  assert (label_count c1 = label_count c0 + 3) as Hk1 by reflexivity.
  assert (label_count c_body = label_count c2 + 0) as Hkb by reflexivity.
  destruct (branch_lines body (label_count c0 + 3) c_body)
    as (ls_b & Hob & Hnb & Hdb & _); [lia|].
  destruct (update_lines update
              (snd (when_present StmtNode_generate_code body c_body)))
    as (ls_u & Hou & Hnu & Hpu).
  split; [reflexivity|]. split; [reflexivity|].
  exists ls_c, ls_b, ls_u.
  split; [|split; [exact Hob|split; [exact Hou|split;
    [|split; [|split; [exact Hnb|split; [exact Hnu|split;
       [|exact Hpu]]]]]]]].
  - rewrite Ho. unfold c1, ctx_with. cbn [outcode].
    rewrite <- !app_assoc. reflexivity.
  - unfold ctx_with at 1. cbn [outcode]. rewrite Hou, Hob.
    unfold c_body at 1. unfold ctx_with at 1. cbn [outcode].
    rewrite <- !app_assoc. reflexivity.
  - intros Hc. specialize (Hnone Hc). injection Hnone as -> ->.
    split; [|reflexivity]. by apply app_self_nil in Ho.
  - intros j Hj. split; [|by apply Hdb].
    rewrite Hdc. rewrite decide_False; [done|lia].
Qed.
